(** * discordmcp: resolution and aggregation layer of the Discord MCP server

    A shallow embedding of [src/index.ts]: the guild resolver [findGuild],
    the forum lookup that every forum tool spells out, and the tool handlers
    [add-thread-tags], [list-threads], [search-threads], [unarchive-thread]
    and [read-forum-threads].

    The Discord client is an external collaborator.  It is modelled as a
    record of oracles ([Client]) whose answers may depend on the history of
    requests issued so far; a handler is a computation in a small
    state-and-exception monad ([M]) that threads this history, so that what
    a handler asks of the client, and in which order, can be stated.

    Modelling conventions:
    - JavaScript strings are [string]s; [toLowerCase] folds the ASCII
      letters only.
    - [createdTimestamp] is an integer ([Z]); a missing timestamp counts as
      0 in the comparator, as [null] does in a JavaScript subtraction.
    - [limit] is a natural number (the schemas bound it to 1..100, resp.
      1..50); schema validation happens before a handler body runs and is
      not modelled.
    - A discord.js [Collection] is an insertion-ordered association list.
    - Handlers return the object handed to [JSON.stringify], or the text of
      the reply; the serialisation and the reply envelope are not modelled.
      Pass-through fields that no handler inspects (ownerId, messageCount,
      attachments, embeds, ...) are left out of the records.
    - The [catch] around the dispatch rethrows every error of a handler
      unchanged, so a handler's exception is the exception of the call. *)

From Stdlib Require Import String Ascii List ZArith Bool Arith Lia.
From Stdlib Require Import Permutation Sorted DecimalString.
Import ListNotations.

Local Open Scope string_scope.
Local Open Scope list_scope.

(* ================================================================= *)
(** ** JavaScript string primitives *)

Module Js.

(** The double-quote character, used by the template literals. *)
Definition dquote : string := String (ascii_of_nat 34) EmptyString.

(** [`"${s}"`] *)
Definition quoted (s : string) : string := dquote ++ s ++ dquote.

Definition lowerChar (c : ascii) : ascii :=
  let n := nat_of_ascii c in
  if ((65 <=? n)%nat && (n <=? 90)%nat)%bool then ascii_of_nat (n + 32) else c.

(** [String.prototype.toLowerCase], on ASCII. *)
Fixpoint toLowerCase (s : string) : string :=
  match s with
  | EmptyString => EmptyString
  | String c s' => String (lowerChar c) (toLowerCase s')
  end.

(** [String.prototype.includes]: [sub] occurs in [s] at some offset. *)
Fixpoint includes (s sub : string) : bool :=
  String.prefix sub s ||
  match s with
  | EmptyString => false
  | String _ s' => includes s' sub
  end.

(** [s.replace("#", "")]: drops the first occurrence of the hash sign. *)
Fixpoint replaceHash (s : string) : string :=
  match s with
  | EmptyString => EmptyString
  | String c s' =>
      if Ascii.eqb c (ascii_of_nat 35) then s' else String c (replaceHash s')
  end.

(** [Array.prototype.join]. *)
Definition join (sep : string) (l : list string) : string :=
  String.concat sep l.

(** Truthiness of a string value: the empty string is falsy. *)
Definition truthy (s : string) : bool := negb (s =? EmptyString).

(** Truthiness of an optional string ([undefined] is falsy). *)
Definition truthyOpt (o : option string) : bool :=
  match o with
  | Some s => truthy s
  | None => false
  end.

(** [[...new Set(l)]]: first occurrences, in order. *)
Fixpoint uniq (l : list string) (seen : list string) : list string :=
  match l with
  | [] => []
  | x :: l' =>
      if existsb (String.eqb x) seen then uniq l' seen
      else x :: uniq l' (x :: seen)
  end.

(** A value of type [string | number], as the [before] parameters are. *)
Inductive StrOrNum : Type :=
| Str (s : string)
| Num (n : Z).

Definition truthyValue (v : StrOrNum) : bool :=
  match v with
  | Str s => truthy s
  | Num n => negb (n =? 0)%Z
  end.

(** [String(v)], for the integers. *)
Definition toString (v : StrOrNum) : string :=
  match v with
  | Str s => s
  | Num n => NilZero.string_of_int (Z.to_int n)
  end.

End Js.

(* ================================================================= *)
(** ** Data model *)

Record Guild : Type := mkGuild {
  guild_id : string;
  guild_name : string
}.

Record Emoji : Type := mkEmoji {
  emoji_id : option string;
  emoji_name : option string
}.

Record Tag : Type := mkTag {
  tag_id : string;
  tag_name : string;
  tag_emoji : option Emoji
}.

(** The members of discord.js [ChannelType] that the handlers tell apart;
    [OtherChannel] stands for the remaining ones. *)
Inductive ChannelType : Type :=
| GuildText
| GuildForum
| AnnouncementThread
| PublicThread
| PrivateThread
| OtherChannel.

Definition ChannelType_eqb (a b : ChannelType) : bool :=
  match a, b with
  | GuildText, GuildText
  | GuildForum, GuildForum
  | AnnouncementThread, AnnouncementThread
  | PublicThread, PublicThread
  | PrivateThread, PrivateThread
  | OtherChannel, OtherChannel => true
  | _, _ => false
  end.

(** A guild channel as the handlers see it: a forum reads [availableTags],
    a thread reads [parent], [archived], [createdTimestamp] and
    [appliedTags]. *)
Record Channel : Type := mkChannel {
  ch_id : string;
  ch_name : string;
  ch_type : ChannelType;
  ch_parent : option string;          (* [thread.parent?.id] *)
  ch_archived : bool;
  ch_locked : bool;
  ch_createdTimestamp : Z;
  ch_appliedTags : list string;
  ch_availableTags : list Tag
}.

(** [ch instanceof ThreadChannel] *)
Definition isThreadChannel (c : Channel) : bool :=
  match ch_type c with
  | AnnouncementThread | PublicThread | PrivateThread => true
  | _ => false
  end.

Definition isForum (c : Channel) : bool :=
  ChannelType_eqb (ch_type c) GuildForum.

Record Message : Type := mkMessage {
  msg_id : string;
  msg_author : string;
  msg_content : string
}.

(* ================================================================= *)
(** ** discord.js Collection *)

Module Collection.

(** A [Map] keyed by id, iterated in insertion order. *)
Definition t (V : Type) : Type := list (string * V).

Definition empty {V} : t V := [].

Definition size {V} (c : t V) : nat := length c.

Definition keys {V} (c : t V) : list string := map fst c.

Definition values {V} (c : t V) : list V := map snd c.

(** [Map.prototype.set]: an existing key keeps its position and takes the
    new value, a new key goes last. *)
Fixpoint set {V} (k : string) (v : V) (c : t V) : t V :=
  match c with
  | [] => [(k, v)]
  | (k', v') :: c' =>
      if String.eqb k' k then (k, v) :: c' else (k', v') :: set k v c'
  end.

(** [this.concat(other)]: a clone of [this] into which every entry of
    [other] is [set], in order. *)
Definition concat {V} (c other : t V) : t V :=
  fold_left (fun acc kv => set (fst kv) (snd kv) acc) other c.

Definition first {V} (c : t V) : option V :=
  match c with
  | [] => None
  | (_, v) :: _ => Some v
  end.

Definition filter {V} (p : V -> bool) (c : t V) : t V :=
  List.filter (fun kv => p (snd kv)) c.

(** [Collection.prototype.map] returns an array. *)
Definition map {V B} (f : V -> B) (c : t V) : list B :=
  List.map (fun kv => f (snd kv)) c.

(** The collection a manager builds from entities: keyed by their id. *)
Definition ofList {V} (key : V -> string) (l : list V) : t V :=
  fold_left (fun acc v => set (key v) v acc) l empty.

End Collection.

(* ================================================================= *)
(** ** The external client and the handler monad *)

(** How a request to the platform can fail. *)
Inductive ApiFailure : Type :=
| UnknownEntity        (* the platform reports that the id does not exist *)
| MissingAccess
| RateLimited
| NetworkFailure.

(** What a handler can throw: its own [new Error(msg)], or the rejection of
    an awaited request. *)
Inductive Exn : Type :=
| Error (msg : string)
| Rejection (f : ApiFailure).

Inductive Settled (A : Type) : Type :=
| Fulfilled (a : A)
| Rejected (f : ApiFailure).
Arguments Fulfilled {A} a.
Arguments Rejected {A} f.

(** Options of [threads.fetchArchived]; a call without argument leaves
    both undefined. *)
Record ArchivedOptions : Type := mkArchivedOptions {
  ao_limit : option nat;
  ao_before : option string
}.

(** Options of [messages.fetch]. *)
Record FetchOptions : Type := mkFetchOptions {
  fo_limit : nat;
  fo_before : option string
}.

(** The requests a handler issues to the client. *)
Inductive Call : Type :=
| GuildsFetch (id : string)
| ChannelsFetch (guild : string) (id : string)
| FetchActive (forum : string)
| FetchArchived (forum : string) (opts : ArchivedOptions)
| MessagesFetch (thread : string) (opts : FetchOptions)
| SetAppliedTags (thread : string) (tags : list string)
| SetArchived (thread : string) (archived : bool) (reason : option string).

Definition History : Type := list Call.

(** The calls that change remote state. *)
Definition mutating (c : Call) : bool :=
  match c with
  | SetAppliedTags _ _ | SetArchived _ _ _ => true
  | _ => false
  end.

Definition isFetchArchived (c : Call) : bool :=
  match c with
  | FetchArchived _ _ => true
  | _ => false
  end.

(** The client: every answer may depend on the requests issued before. *)
Record Client : Type := mkClient {
  guilds_cache : History -> Collection.t Guild;
  guilds_fetch : History -> string -> Settled (option Guild);
  channels_cache : History -> Guild -> Collection.t Channel;
  channels_fetch : History -> Guild -> string -> Settled (option Channel);
  threads_fetchActive : History -> Channel -> Settled (Collection.t Channel);
  threads_fetchArchived :
    History -> Channel -> ArchivedOptions -> Settled (Collection.t Channel);
  messages_fetch :
    History -> Channel -> FetchOptions -> Settled (Collection.t Message);
  setAppliedTags : History -> Channel -> list string -> Settled unit;
  setArchived : History -> Channel -> bool -> option string -> Settled unit
}.

Inductive Completion (A : Type) : Type :=
| Return (a : A)
| Throw (e : Exn).
Arguments Return {A} a.
Arguments Throw {A} e.

(** An async function body: from the history so far to a completion and the
    history extended by the requests it issued. *)
Definition M (A : Type) : Type := History -> Completion A * History.

Definition ret {A} (a : A) : M A := fun h => (Return a, h).

Definition throw {A} (e : Exn) : M A := fun h => (Throw e, h).

Definition bind {A B} (m : M A) (k : A -> M B) : M B :=
  fun h =>
    match m h with
    | (Return a, h') => k a h'
    | (Throw e, h') => (Throw e, h')
    end.

Declare Scope js_scope.
Delimit Scope js_scope with js.
Notation "x <- m ;; k" := (bind m (fun x => k))
  (at level 61, m at next level, right associativity) : js_scope.
Notation "m ;;; k" := (bind m (fun _ => k))
  (at level 61, right associativity) : js_scope.
Local Open Scope js_scope.

(** Issue a request and observe how its promise settles (the body of a
    [try] whose [catch] inspects nothing). *)
Definition request {A} (c : Call) (answer : History -> Settled A)
  : M (Settled A) :=
  fun h => (Return (answer h), h ++ [c]).

(** [await]: a rejection is thrown. *)
Definition await {A} (c : Call) (answer : History -> Settled A) : M A :=
  r <- request c answer ;;
  match r with
  | Fulfilled a => ret a
  | Rejected f => throw (Rejection f)
  end.

(** A synchronous read of client state. *)
Definition peek {A} (read : History -> A) : M A := fun h => (Return (read h), h).

(* ================================================================= *)
(** ** Array helpers *)

Module JsArray.

Section Sort.
Context {A : Type}.
Variable compareFn : A -> A -> Z.

(** [x] goes in front of the first element it does not compare greater
    than; elements it ties with stay behind it. *)
Fixpoint insert (x : A) (l : list A) : list A :=
  match l with
  | [] => [x]
  | y :: l' =>
      if (compareFn x y <=? 0)%Z then x :: y :: l' else y :: insert x l'
  end.

(** [Array.prototype.sort(compareFn)]: the stable sort (ECMAScript 2019),
    here by insertion from the right. *)
Definition sort (l : list A) : list A := fold_right insert [] l.
End Sort.

(** [Array.prototype.slice(0, n)] *)
Definition slice0 {A} (n : nat) (l : list A) : list A := firstn n l.

(** [Array.prototype.find] *)
Definition find {A} (p : A -> bool) (l : list A) : option A := List.find p l.

End JsArray.

(* ================================================================= *)
(** ** Output records *)

Record TagView : Type := mkTagView {
  tv_id : string;
  tv_name : string;
  tv_emoji : option Emoji
}.

Record ThreadView : Type := mkThreadView {
  threadId : string;
  threadName : string;
  createdTimestamp : Z;
  archived : bool;
  locked : bool;
  tags : list TagView
}.

Record ListThreadsResult : Type := mkListThreadsResult {
  lt_forumChannel : string;
  lt_server : string;
  lt_totalThreads : nat;
  lt_includeArchived : bool;
  lt_threads : list ThreadView
}.

Record SearchThreadsResult : Type := mkSearchThreadsResult {
  st_forumChannel : string;
  st_server : string;
  st_query : string;
  st_exactMatch : bool;
  st_totalFound : nat;
  st_totalSearched : nat;
  st_includeArchived : bool;
  st_threads : list ThreadView
}.

Record MessageView : Type := mkMessageView {
  mv_messageId : string;
  mv_thread : string;
  mv_threadId : string;
  mv_channel : string;
  mv_server : string;
  mv_author : string;
  mv_content : string
}.

Record ForumThreadEntry : Type := mkForumThreadEntry {
  fe_thread : string;
  fe_threadId : string;
  fe_tags : list TagView;
  fe_messages : list MessageView
}.

(* ================================================================= *)
(** ** Pure parts of the handlers *)

Definition newline : string := String (ascii_of_nat 10) EmptyString.

(** [forumChannel.availableTags.find(t => t.id === tagId)] and the
    projection of the tag, with the placeholder for an unknown id. *)
Definition tagView (forumChannel : Channel) (tagId : string) : TagView :=
  match JsArray.find (fun t => tag_id t =? tagId) (ch_availableTags forumChannel) with
  | Some tag =>
      mkTagView (tag_id tag) (tag_name tag)
        (match tag_emoji tag with
         | Some e => Some (mkEmoji (emoji_id e) (emoji_name e))
         | None => None
         end)
  | None => mkTagView tagId "Unknown Tag" None
  end.

Definition threadTags (forumChannel thread : Channel) : list TagView :=
  map (tagView forumChannel) (ch_appliedTags thread).

(** The object built for each thread of [list-threads] and
    [search-threads]. *)
Definition formatThread (forumChannel thread : Channel) : ThreadView :=
  mkThreadView (ch_id thread) (ch_name thread) (ch_createdTimestamp thread)
    (ch_archived thread) (ch_locked thread) (threadTags forumChannel thread).

(** [(a, b) => b.createdTimestamp! - a.createdTimestamp!] *)
Definition byCreatedDesc (a b : Channel) : Z :=
  (ch_createdTimestamp b - ch_createdTimestamp a)%Z.

(** [.sort((a, b) => b.createdTimestamp! - a.createdTimestamp!).slice(0, limit)] *)
Definition sortAndLimit (limit : nat) (threads : list Channel) : list Channel :=
  JsArray.slice0 limit (JsArray.sort byCreatedDesc threads).

(** The predicate of the filter of [search-threads]. *)
Definition matchesQuery (query : string) (exactMatch : bool) (thread : Channel)
  : bool :=
  let queryLower := Js.toLowerCase query in
  let threadNameLower := Js.toLowerCase (ch_name thread) in
  if exactMatch then threadNameLower =? queryLower
  else Js.includes threadNameLower queryLower.

Definition filterThreads (query : string) (exactMatch : bool)
  (threads : list Channel) : list Channel :=
  filter (matchesQuery query exactMatch) threads.

(** The name test of the forum search: the name equals the identifier, or
    the identifier without its first hash sign, case-insensitively. *)
Definition forumNameMatches (channelIdentifier : string) (c : Channel) : bool :=
  isForum c &&
  ((Js.toLowerCase (ch_name c) =? Js.toLowerCase channelIdentifier) ||
   (Js.toLowerCase (ch_name c) =?
      Js.replaceHash (Js.toLowerCase channelIdentifier))).

(** The loop of [add-thread-tags] over the requested names: the ids of the
    names found and the names not found, each in request order. *)
Definition resolveTagNames (forumChannel : Channel) (tagNames : list string)
  : list string * list string :=
  fold_left
    (fun acc tagName =>
       let '(tagIds, notFoundTags) := acc in
       match JsArray.find
               (fun tag => Js.toLowerCase (tag_name tag) =? Js.toLowerCase tagName)
               (ch_availableTags forumChannel) with
       | Some foundTag => (tagIds ++ [tag_id foundTag], notFoundTags)
       | None => (tagIds, notFoundTags ++ [tagName])
       end)
    tagNames ([], []).

Definition availableTagNames (forumChannel : Channel) : string :=
  Js.join ", " (map (fun tag => Js.quoted (tag_name tag))
                    (ch_availableTags forumChannel)).

Definition tagsNotFoundMessage (forumChannel : Channel)
  (notFoundTags : list string) : string :=
  "Tags not found: " ++ Js.join ", " notFoundTags ++
  ". Available tags: " ++ availableTagNames forumChannel.

Definition alreadyActiveMessage (thread : Channel) : string :=
  "Thread " ++ Js.quoted (ch_name thread) ++ " is already active (not archived).".

Definition multipleServersMessage (guildIdentifier : string)
  (guilds : Collection.t Guild) : string :=
  "Multiple servers found with name " ++ Js.quoted guildIdentifier ++ ": " ++
  Js.join ", "
    (Collection.map
       (fun g => (guild_name g ++ " (ID: " ++ guild_id g ++ ")")%string) guilds) ++
  ". Please specify the server ID.".

Definition availableServers (cache : Collection.t Guild) : string :=
  Js.join ", " (Collection.map (fun g => Js.quoted (guild_name g)) cache).

(** Constants of the pagination of [search-threads]. *)
Definition maxFetches : nat := 10.
Definition batchLimit : nat := 100.

(** Constant of [read-forum-threads]: messages requested per thread. *)
Definition messagesPerThread : nat := 10.

(** [archivedOptions]: [{ limit: 100 }], with [before] when it is truthy. *)
Definition archivedOptions (before : option string) : ArchivedOptions :=
  mkArchivedOptions (Some batchLimit)
    (if Js.truthyOpt before then before else None).

(** [threadIds[threadIds.length - 1]] *)
Definition lastKey {V} (c : Collection.t V) : option string :=
  match rev (Collection.keys c) with
  | [] => None
  | k :: _ => Some k
  end.

(* ================================================================= *)
(** ** The resolvers and the tool handlers *)

Section Handlers.

Variable client : Client.

(** [findGuild(guildIdentifier?)] *)
Definition findGuild (guildIdentifier : option string) : M Guild :=
  match guildIdentifier with
  | Some ident =>
      if Js.truthy ident then
        (* Try to fetch by ID first *)
        r <- request (GuildsFetch ident) (fun h => guilds_fetch client h ident) ;;
        match r with
        | Fulfilled (Some guild) => ret guild
        | Fulfilled None =>
            throw (Error ("Server " ++ Js.quoted ident ++ " not found"))
        | Rejected _ =>
            (* If ID fetch fails, search by name *)
            cache <- peek (guilds_cache client) ;;
            let guilds :=
              Collection.filter
                (fun g => Js.toLowerCase (guild_name g) =? Js.toLowerCase ident)
                cache in
            match guilds with
            | [] =>
                throw (Error ("Server " ++ Js.quoted ident ++
                              " not found. Available servers: " ++
                              availableServers cache))
            | [(_, guild)] => ret guild
            | _ => throw (Error (multipleServersMessage ident guilds))
            end
        end
      else
        cache <- peek (guilds_cache client) ;;
        match cache with
        | [(_, guild)] => ret guild
        | _ =>
            throw (Error ("Bot is in multiple servers. Please specify server name or ID. Available servers: " ++
                          availableServers cache))
        end
  | None =>
      (* If no guild specified and bot is only in one guild, use that *)
      cache <- peek (guilds_cache client) ;;
      match cache with
      | [(_, guild)] => ret guild
      | _ =>
          throw (Error ("Bot is in multiple servers. Please specify server name or ID. Available servers: " ++
                        availableServers cache))
      end
  end.

(** The forum lookup that [read-forum-threads], [add-thread-tags],
    [list-threads] and [search-threads] each spell out: by id first, and,
    when that gives no forum channel, by name in the guild's cache. *)
Definition resolveForum (guild : Guild) (channelIdentifier : string)
  : M Channel :=
  r <- request (ChannelsFetch (guild_id guild) channelIdentifier)
         (fun h => channels_fetch client h guild channelIdentifier) ;;
  let forumChannel :=
    match r with
    | Fulfilled (Some ch) => if isForum ch then Some ch else None
    | _ => None
    end in
  match forumChannel with
  | Some forum => ret forum
  | None =>
      (* Search by name *)
      cache <- peek (fun h => channels_cache client h guild) ;;
      let channels :=
        Collection.filter (forumNameMatches channelIdentifier) cache in
      match channels with
      | [] =>
          let availableForums :=
            Js.join ", "
              (Collection.map (fun c => Js.quoted ("#" ++ ch_name c)%string)
                 (Collection.filter isForum cache)) in
          throw (Error ("Forum channel " ++ Js.quoted channelIdentifier ++
                        " not found in server " ++ Js.quoted (guild_name guild) ++
                        ". Available forums: " ++ availableForums))
      | [(_, forum)] => ret forum
      | _ =>
          let forumList :=
            Js.join ", "
              (Collection.map
                 (fun c => ("#" ++ ch_name c ++ " (" ++ ch_id c ++ ")")%string)
                 channels) in
          throw (Error ("Multiple forum channels found with name " ++
                        Js.quoted channelIdentifier ++ " in server " ++
                        Js.quoted (guild_name guild) ++ ": " ++ forumList ++
                        ". Please specify the channel ID."))
      end
  end.

(** The [while (hasMore && fetchCount < maxFetches)] loop of
    [search-threads].  [remaining] is [maxFetches - fetchCount]; an empty
    batch clears [hasMore] and leaves the loop. *)
Fixpoint fetchAllArchived (remaining : nat) (forumChannel : Channel)
  (before : option string) (allThreads : Collection.t Channel)
  : M (Collection.t Channel) :=
  match remaining with
  | O => ret allThreads
  | S remaining' =>
      let opts := archivedOptions before in
      archivedThreads <-
        await (FetchArchived (ch_id forumChannel) opts)
          (fun h => threads_fetchArchived client h forumChannel opts) ;;
      if (Collection.size archivedThreads =? 0)%nat then ret allThreads
      else
        fetchAllArchived remaining' forumChannel (lastKey archivedThreads)
          (Collection.concat allThreads archivedThreads)
  end.

(** [forumChannel.threads.fetchActive()], merged into a new collection. *)
Definition fetchActiveThreads (forumChannel : Channel)
  : M (Collection.t Channel) :=
  activeThreads <-
    await (FetchActive (ch_id forumChannel))
      (fun h => threads_fetchActive client h forumChannel) ;;
  ret (Collection.concat Collection.empty activeThreads).

(** The archived threads of [list-threads]: one [fetchArchived()] without
    options, merged into the threads collected so far. *)
Definition fetchArchivedOnce (forumChannel : Channel)
  (allThreads : Collection.t Channel) : M (Collection.t Channel) :=
  let opts := mkArchivedOptions None None in
  archivedThreads <-
    await (FetchArchived (ch_id forumChannel) opts)
      (fun h => threads_fetchArchived client h forumChannel opts) ;;
  ret (Collection.concat allThreads archivedThreads).

(** case "list-threads" *)
Definition listThreads (server : option string) (channelIdentifier : string)
  (limit : nat) (includeArchived : bool) : M ListThreadsResult :=
  guild <- findGuild server ;;
  forumChannel <- resolveForum guild channelIdentifier ;;
  allThreads <- fetchActiveThreads forumChannel ;;
  allThreads <-
    (if includeArchived then fetchArchivedOnce forumChannel allThreads
     else ret allThreads) ;;
  let threadList := sortAndLimit limit (Collection.values allThreads) in
  let result := map (formatThread forumChannel) threadList in
  ret (mkListThreadsResult (ch_name forumChannel) (guild_name guild)
         (length result) includeArchived result).

(** case "search-threads" *)
Definition searchThreads (server : option string) (channelIdentifier : string)
  (query : string) (limit : nat) (includeArchived exactMatch : bool)
  : M SearchThreadsResult :=
  guild <- findGuild server ;;
  forumChannel <- resolveForum guild channelIdentifier ;;
  allThreads <- fetchActiveThreads forumChannel ;;
  allThreads <-
    (if includeArchived then
       fetchAllArchived maxFetches forumChannel None allThreads
     else ret allThreads) ;;
  let filteredThreads :=
    filterThreads query exactMatch (Collection.values allThreads) in
  let threadList := sortAndLimit limit filteredThreads in
  let result := map (formatThread forumChannel) threadList in
  ret (mkSearchThreadsResult (ch_name forumChannel) (guild_name guild)
         query exactMatch (length result) (length filteredThreads)
         includeArchived result).

(** case "add-thread-tags" *)
Definition addThreadTags (server : option string) (channelIdentifier : string)
  (threadId : string) (tagNames : list string) : M string :=
  guild <- findGuild server ;;
  forumChannel <- resolveForum guild channelIdentifier ;;
  fetched <-
    await (ChannelsFetch (guild_id guild) threadId)
      (fun h => channels_fetch client h guild threadId) ;;
  let notFound :=
    Error ("Thread " ++ Js.quoted threadId ++ " not found in forum channel " ++
           Js.quoted (ch_name forumChannel)) in
  match fetched with
  | None => throw notFound
  | Some thread =>
      if negb (ChannelType_eqb (ch_type thread) PublicThread) ||
         negb (match ch_parent thread with
               | Some p => p =? ch_id forumChannel
               | None => false
               end)
      then throw notFound
      else
        (* Find tag IDs from tag names *)
        let '(tagIds, notFoundTags) := resolveTagNames forumChannel tagNames in
        if (0 <? length notFoundTags)%nat then
          throw (Error (tagsNotFoundMessage forumChannel notFoundTags))
        else
          (* Combine existing tags with new tags (avoid duplicates) *)
          let newTagIds := Js.uniq (ch_appliedTags thread ++ tagIds) [] in
          await (SetAppliedTags (ch_id thread) newTagIds)
            (fun h => setAppliedTags client h thread newTagIds) ;;;
          let updatedTagNames :=
            map (fun tagId =>
                   match JsArray.find (fun t => tag_id t =? tagId)
                           (ch_availableTags forumChannel) with
                   | Some tag => tag_name tag
                   | None => "Unknown Tag"
                   end) newTagIds in
          ret ("Tags added successfully to thread " ++
               Js.quoted (ch_name thread) ++ " in #" ++ ch_name forumChannel ++
               "!" ++ newline ++ "Applied tags: " ++
               Js.join ", " updatedTagNames)%string
  end.

(** case "unarchive-thread" *)
Definition unarchiveThread (server : option string) (threadId : string)
  (reason : option string) : M string :=
  guild <- findGuild server ;;
  fetched <-
    await (ChannelsFetch (guild_id guild) threadId)
      (fun h => channels_fetch client h guild threadId) ;;
  let notThread :=
    Error ("Thread " ++ Js.quoted threadId ++ " not found or is not a thread") in
  match fetched with
  | None => throw notThread
  | Some thread =>
      if negb (isThreadChannel thread) then throw notThread
      else if negb (ch_archived thread) then
        (* Check if thread is already unarchived *)
        ret (alreadyActiveMessage thread)
      else
        await (SetArchived (ch_id thread) false reason)
          (fun h => setArchived client h thread false reason) ;;;
        ret ("Thread " ++ Js.quoted (ch_name thread) ++ " (ID: " ++
             ch_id thread ++
             ") has been successfully unarchived and is now active." ++
             match reason with
             | Some r => if Js.truthy r then (newline ++ "Reason: " ++ r)%string
                         else EmptyString
             | None => EmptyString
             end)%string
  end.

(** The body of the [for (const thread of threadList)] loop of
    [read-forum-threads]. *)
Definition readThread (guild : Guild) (forumChannel : Channel)
  (before : option Js.StrOrNum) (thread : Channel) : M ForumThreadEntry :=
  let fetchOptions :=
    mkFetchOptions messagesPerThread
      (match before with
       | Some b => if Js.truthyValue b then Some (Js.toString b) else None
       | None => None
       end) in
  threadMessages <-
    await (MessagesFetch (ch_id thread) fetchOptions)
      (fun h => messages_fetch client h thread fetchOptions) ;;
  let messagesArr :=
    map (fun msg =>
           mkMessageView (msg_id msg) (ch_name thread) (ch_id thread)
             ("#" ++ ch_name forumChannel)%string (guild_name guild)
             (msg_author msg) (msg_content msg))
        (Collection.values threadMessages) in
  ret (mkForumThreadEntry (ch_name thread) (ch_id thread)
         (threadTags forumChannel thread) messagesArr).

Fixpoint forEach {A B} (body : A -> M B) (l : list A) : M (list B) :=
  match l with
  | [] => ret []
  | x :: l' =>
      y <- body x ;;
      ys <- forEach body l' ;;
      ret (y :: ys)
  end.

(** case "read-forum-threads" *)
Definition readForumThreads (server : option string)
  (channelIdentifier : string) (limit : nat) (before : option Js.StrOrNum)
  : M (list ForumThreadEntry) :=
  guild <- findGuild server ;;
  forumChannel <- resolveForum guild channelIdentifier ;;
  (* Fetch threads in the forum channel *)
  threads <-
    await (FetchActive (ch_id forumChannel))
      (fun h => threads_fetchActive client h forumChannel) ;;
  let threadList := JsArray.slice0 limit (Collection.values threads) in
  forEach (readThread guild forumChannel before) threadList.

End Handlers.

(* ================================================================= *)
(** ** Vocabulary of the specification *)

(** [m] only appends to the history, and every request it appends
    satisfies [P]. *)
Definition issues {A} (P : Call -> Prop) (m : M A) : Prop :=
  forall h, exists calls, snd (m h) = h ++ calls /\ Forall P calls.

(** The requests that only look an entity up. *)
Definition isLookup (c : Call) : bool :=
  match c with
  | GuildsFetch _ | ChannelsFetch _ _ => true
  | _ => false
  end.

(** What [read-forum-threads] may ask of the client: lookups, the active
    threads, and messages in tens; no archived threads, no update. *)
Definition readsBounded (c : Call) : Prop :=
  match c with
  | GuildsFetch _ | ChannelsFetch _ _ | FetchActive _ => True
  | MessagesFetch _ opts => fo_limit opts = 10%nat
  | FetchArchived _ _ | SetAppliedTags _ _ | SetArchived _ _ _ => False
  end.

Definition isMessagesFetch (c : Call) : bool :=
  match c with
  | MessagesFetch _ _ => true
  | _ => false
  end.

Definition countArchived (calls : History) : nat :=
  length (filter isFetchArchived calls).

(** [sub] occurs in [s]. *)
Definition containsSubstring (s sub : string) : Prop :=
  exists pre post, s = (pre ++ sub ++ post)%string.

(** Case-insensitive equality and containment of a thread name. *)
Definition equalsIgnoreCase (name query : string) : Prop :=
  Js.toLowerCase name = Js.toLowerCase query.

Definition containsIgnoreCase (name query : string) : Prop :=
  containsSubstring (Js.toLowerCase name) (Js.toLowerCase query).

(** A requested tag name that matches a configured tag, case-insensitively. *)
Definition tagNameMatches (forumChannel : Channel) (tagName : string) : bool :=
  existsb (fun tag => Js.toLowerCase (tag_name tag) =? Js.toLowerCase tagName)
    (ch_availableTags forumChannel).

(** The requested names without a match, in request order. *)
Definition unmatchedNames (forumChannel : Channel) (tagNames : list string)
  : list string :=
  filter (fun tagName => negb (tagNameMatches forumChannel tagName)) tagNames.

(** Newest first. *)
Definition newestFirst (a b : Channel) : Prop :=
  (ch_createdTimestamp b <= ch_createdTimestamp a)%Z.

(** The threads of [l] created at [ts], in the order [l] has them. *)
Definition createdAt (ts : Z) (l : list Channel) : list Channel :=
  filter (fun t => (ch_createdTimestamp t =? ts)%Z) l.

(** A batch source that answers the archived-thread requests issued after
    [h] from a script, one batch per request, whatever the options. *)
Definition scripted (client : Client) (forumChannel : Channel) (h : History)
  (batches : list (Collection.t Channel)) : Prop :=
  forall calls opts batch,
    nth_error batches (countArchived calls) = Some batch ->
    threads_fetchArchived client (h ++ calls) forumChannel opts = Fulfilled batch.

(** A batch source that answers every request for up to [batchLimit]
    archived threads, and never with an empty batch. *)
Definition neverEmpty (client : Client) (forumChannel : Channel) : Prop :=
  forall h opts,
    ao_limit opts = Some batchLimit ->
    exists batch,
      threads_fetchArchived client h forumChannel opts = Fulfilled batch /\
      (0 < Collection.size batch)%nat.

(** A batch source that returns no more threads than a request allows. *)
Definition withinBatchLimit (client : Client) (forumChannel : Channel) : Prop :=
  forall h opts batch n,
    threads_fetchArchived client h forumChannel opts = Fulfilled batch ->
    ao_limit opts = Some n ->
    (Collection.size batch <= n)%nat.

(** A message source that answers every request. *)
Definition answersMessages (client : Client) : Prop :=
  forall h thread opts,
    exists messages, messages_fetch client h thread opts = Fulfilled messages.

(** A message source that returns no more messages than a request allows. *)
Definition withinMessageLimit (client : Client) : Prop :=
  forall h thread opts messages,
    messages_fetch client h thread opts = Fulfilled messages ->
    (Collection.size messages <= fo_limit opts)%nat.

(** [list-threads] as the specification words it: the archived threads come
    from the paginated fetch of [search-threads]. *)
Definition listThreadsPaginated (client : Client) (server : option string)
  (channelIdentifier : string) (limit : nat) (includeArchived : bool)
  : M ListThreadsResult :=
  guild <- findGuild client server ;;
  forumChannel <- resolveForum client guild channelIdentifier ;;
  allThreads <- fetchActiveThreads client forumChannel ;;
  allThreads <-
    (if includeArchived then
       fetchAllArchived client maxFetches forumChannel None allThreads
     else ret allThreads) ;;
  let threadList := sortAndLimit limit (Collection.values allThreads) in
  let result := map (formatThread forumChannel) threadList in
  ret (mkListThreadsResult (ch_name forumChannel) (guild_name guild)
         (length result) includeArchived result).

(* ================================================================= *)
(** ** Concrete clients *)

Module Scenario.

Definition alpha : Guild := mkGuild "100" "Alpha".
Definition twin1 : Guild := mkGuild "201" "Twin".
Definition twin2 : Guild := mkGuild "202" "Twin".

Definition answered : Tag := mkTag "t1" "Answered" None.
Definition important : Tag := mkTag "t2" "Important" None.

Definition qna : Channel :=
  mkChannel "300" "qna" GuildForum None false false 0 [] [answered; important].

Definition thread (id name : string) (created : Z) (isArchived : bool)
  (applied : list string) : Channel :=
  mkChannel id name PublicThread (Some "300") isArchived false created applied [].

Definition message (id : string) : Message := mkMessage id "user#0001" "hello".

(** A client over fixed data: guilds and channels are found by id, the
    archived threads come in scripted batches, every update succeeds. *)
Definition stub (guilds : list Guild) (unknownGuild : ApiFailure)
  (active : list Channel) (batches : list (Collection.t Channel))
  (messages : list Message) : Client :=
  {| guilds_cache := fun _ => Collection.ofList guild_id guilds;
     guilds_fetch := fun _ id =>
       match find (fun g => guild_id g =? id) guilds with
       | Some g => Fulfilled (Some g)
       | None => Rejected unknownGuild
       end;
     channels_cache := fun _ _ => Collection.ofList ch_id [qna];
     channels_fetch := fun _ _ id =>
       match find (fun c => ch_id c =? id)
               (qna :: active ++ flat_map Collection.values batches) with
       | Some c => Fulfilled (Some c)
       | None => Rejected UnknownEntity
       end;
     threads_fetchActive := fun _ _ => Fulfilled (Collection.ofList ch_id active);
     threads_fetchArchived := fun h _ _ =>
       Fulfilled (nth (countArchived h) batches Collection.empty);
     messages_fetch := fun _ _ opts =>
       Fulfilled (Collection.ofList msg_id (firstn (fo_limit opts) messages));
     setAppliedTags := fun _ _ _ => Fulfilled tt;
     setArchived := fun _ _ _ _ => Fulfilled tt |}.

Definition library : Channel := thread "401" "Library" 5 false ["t1"].
Definition library2 : Channel := thread "402" "Library2" 3 false [].
Definition libraryNotes : Channel := thread "403" "library-notes" 3 false ["t9"].
Definition oldest : Channel := thread "404" "Changelog" 1 false [].
Definition buried1 : Channel := thread "501" "Hamster" 2 true [].
Definition buried2 : Channel := thread "502" "Hamster wheel" 1 true [].

(** One guild, four active threads, two archived threads in two batches. *)
Definition community : Client :=
  stub [alpha] UnknownEntity [library; library2; libraryNotes; oldest]
    [Collection.ofList ch_id [buried1]; Collection.ofList ch_id [buried2]]
    [message "m1"; message "m2"].

(** Three guilds, two of them named alike. *)
Definition twins : Client :=
  stub [alpha; twin1; twin2] UnknownEntity [] [] [].

(** The guild fetch fails for a reason other than an unknown id. *)
Definition offline : Client :=
  stub [alpha] NetworkFailure [] [] [].

(** An archived thread with a numbered id. *)
Definition numbered (n : nat) : Channel :=
  thread (NilZero.string_of_uint (Nat.to_uint n)) "archived" (Z.of_nat n) true [].

Definition batchFrom (first : nat) : Collection.t Channel :=
  Collection.ofList ch_id (map numbered (seq first batchLimit)).

Definition batch1 : Collection.t Channel := batchFrom 1000.
Definition batch2 : Collection.t Channel := batchFrom 2000.
Definition batch3 : Collection.t Channel := batchFrom 3000.

(** Three full batches, then nothing. *)
Definition threeBatches : Client :=
  stub [alpha] UnknownEntity [] [batch1; batch2; batch3] [].

(** Every request is answered with the same threads, as many as the
    request allows and at most a hundred. *)
Definition endless : Client :=
  {| guilds_cache := guilds_cache community;
     guilds_fetch := guilds_fetch community;
     channels_cache := channels_cache community;
     channels_fetch := channels_fetch community;
     threads_fetchActive := threads_fetchActive community;
     threads_fetchArchived := fun _ _ opts =>
       Fulfilled
         (firstn (match ao_limit opts with Some n => n | None => 50 end) batch1);
     messages_fetch := messages_fetch community;
     setAppliedTags := setAppliedTags community;
     setArchived := setArchived community |}.

End Scenario.

(* ================================================================= *)
(** ** Text channels: findChannel, send-message, read-messages *)

Module Messaging.

(** A channel together with the guild it belongs to ([channel.guild]).  A
    channel without guild is never a [TextChannel] or a [ThreadChannel],
    so it fails the test of [findChannel] whatever guild stands here. *)
Record GuildChannel : Type := mkGuildChannel {
  gc_channel : Channel;
  gc_guild : Guild
}.

(** [channel instanceof TextChannel] *)
Definition isTextChannel (c : Channel) : bool :=
  ChannelType_eqb (ch_type c) GuildText.

(** What the text-channel tools ask of the client: the requests of the
    forum tools, the client-wide channel fetch, and sending. *)
Inductive Request : Type :=
| Forum (c : Call)
| ClientChannelsFetch (id : string)
| ChannelSend (channel : string) (content : string).

Definition Log : Type := list Request.

Definition sends (r : Request) : bool :=
  match r with
  | ChannelSend _ _ => true
  | _ => false
  end.

(** The client as the text-channel tools use it.  [bot_client log] is the
    client of the forum tools as it answers once [log] has been issued. *)
Record Bot : Type := mkBot {
  bot_client : Log -> Client;
  client_channels_fetch : Log -> string -> Settled (option GuildChannel);
  channel_send : Log -> GuildChannel -> string -> Settled Message
}.

(** An async function body over the longer log. *)
Definition Task (A : Type) : Type := Log -> Completion A * Log.

Definition done {A} (a : A) : Task A := fun log => (Return a, log).

Definition fail {A} (e : Exn) : Task A := fun log => (Throw e, log).

Definition andThen {A B} (m : Task A) (k : A -> Task B) : Task B :=
  fun log =>
    match m log with
    | (Return a, log') => k a log'
    | (Throw e, log') => (Throw e, log')
    end.

Declare Scope task_scope.
Notation "x <- m ;; k" := (andThen m (fun x => k))
  (at level 61, m at next level, right associativity) : task_scope.
Local Open Scope task_scope.

Definition ask {A} (r : Request) (answer : Log -> Settled A)
  : Task (Settled A) :=
  fun log => (Return (answer log), log ++ [r]).

Definition awaitTask {A} (r : Request) (answer : Log -> Settled A) : Task A :=
  s <- ask r answer ;;
  match s with
  | Fulfilled a => done a
  | Rejected f => fail (Rejection f)
  end.

Definition look {A} (read : Log -> A) : Task A :=
  fun log => (Return (read log), log).

Section Tools.

Variable bot : Bot.

(** A computation of the forum layer, run against the client as it
    stands; its requests go to the log. *)
Definition forum {A} (m : Client -> M A) : Task A :=
  fun log =>
    let '(r, calls) := m (bot_client bot log) [] in
    (r, log ++ map Forum calls).

(** The test of the channel fetched by id. *)
Definition acceptable (guild : Guild) (channel : GuildChannel) : bool :=
  (isTextChannel (gc_channel channel) &&
   (guild_id (gc_guild channel) =? guild_id guild)) ||
  (isThreadChannel (gc_channel channel) &&
   (guild_id (gc_guild channel) =? guild_id guild)).

(** The name test of the text-channel search. *)
Definition textNameMatches (channelIdentifier : string) (c : Channel) : bool :=
  isTextChannel c &&
  ((Js.toLowerCase (ch_name c) =? Js.toLowerCase channelIdentifier) ||
   (Js.toLowerCase (ch_name c) =?
      Js.replaceHash (Js.toLowerCase channelIdentifier))).

Definition notTextChannelMessage (channelIdentifier : string) (guild : Guild)
  : string :=
  "Channel " ++ Js.quoted channelIdentifier ++
  " is not a text channel/thread or not found in server " ++
  Js.quoted (guild_name guild).

(** [findChannel(channelIdentifier, guildIdentifier?)] *)
Definition findChannel (channelIdentifier : string)
  (guildIdentifier : option string) : Task GuildChannel :=
  guild <- forum (fun client => findGuild client guildIdentifier) ;;
  (* First try to fetch by ID *)
  r <- ask (ClientChannelsFetch channelIdentifier)
         (fun log => client_channels_fetch bot log channelIdentifier) ;;
  match r with
  | Fulfilled (Some channel) =>
      if acceptable guild channel then done channel
      else fail (Error (notTextChannelMessage channelIdentifier guild))
  | Fulfilled None =>
      fail (Error (notTextChannelMessage channelIdentifier guild))
  | Rejected _ =>
      (* If fetching by ID fails, search by name in the specified guild *)
      cache <- look (fun log => channels_cache (bot_client bot log) [] guild) ;;
      let channels :=
        Collection.filter (textNameMatches channelIdentifier) cache in
      match channels with
      | [] =>
          let availableChannels :=
            Js.join ", "
              (Collection.map (fun c => Js.quoted ("#" ++ ch_name c)%string)
                 (Collection.filter isTextChannel cache)) in
          fail (Error ("Channel " ++ Js.quoted channelIdentifier ++
                       " not found in server " ++ Js.quoted (guild_name guild) ++
                       ". Available channels: " ++ availableChannels))
      | [(_, channel)] => done (mkGuildChannel channel guild)
      | _ =>
          let channelList :=
            Js.join ", "
              (Collection.map
                 (fun c => ("#" ++ ch_name c ++ " (" ++ ch_id c ++ ")")%string)
                 channels) in
          fail (Error ("Multiple channels found with name " ++
                       Js.quoted channelIdentifier ++ " in server " ++
                       Js.quoted (guild_name guild) ++ ": " ++ channelList ++
                       ". Please specify the channel ID."))
      end
  end.

(** case "send-message".  The schema admits [server]; the handler reads
    [channel] and [message] only. *)
Definition sendMessage (server : option string)
  (channelIdentifier message : string) : Task string :=
  channel <- findChannel channelIdentifier None ;;
  sent <- awaitTask (ChannelSend (ch_id (gc_channel channel)) message)
            (fun log => channel_send bot log channel message) ;;
  done ("Message sent successfully to #" ++ ch_name (gc_channel channel) ++
        " in " ++ guild_name (gc_guild channel) ++ ". Message ID: " ++
        msg_id sent)%string.

Record ChannelMessageView : Type := mkChannelMessageView {
  cm_messageId : string;
  cm_channel : string;
  cm_server : string;
  cm_author : string;
  cm_content : string
}.

(** [fetchOptions] of [read-messages]. *)
Definition readOptions (limit : nat) (before : option Js.StrOrNum)
  : FetchOptions :=
  mkFetchOptions limit
    (match before with
     | Some b => if Js.truthyValue b then Some (Js.toString b) else None
     | None => None
     end).

(** case "read-messages".  Here too [server] is not read. *)
Definition readMessages (server : option string) (channelIdentifier : string)
  (limit : nat) (before : option Js.StrOrNum) : Task (list ChannelMessageView) :=
  channel <- findChannel channelIdentifier None ;;
  let fetchOptions := readOptions limit before in
  messages <-
    forum (fun client =>
             await (MessagesFetch (ch_id (gc_channel channel)) fetchOptions)
               (fun h => messages_fetch client h (gc_channel channel)
                           fetchOptions)) ;;
  done (Collection.map
          (fun msg =>
             mkChannelMessageView (msg_id msg)
               ("#" ++ ch_name (gc_channel channel))%string
               (guild_name (gc_guild channel))
               (msg_author msg) (msg_content msg))
          messages).

End Tools.

(** Every request that [m] appends to the log satisfies [P]. *)
Definition logs {A} (P : Request -> Prop) (m : Task A) : Prop :=
  forall log, exists asked, snd (m log) = log ++ asked /\ Forall P asked.

End Messaging.

(* ================================================================= *)
(** ** Further vocabulary *)

(** [m] only appends to the history, and what it appends satisfies [Q]. *)
Definition emits {A} (Q : History -> Prop) (m : M A) : Prop :=
  forall h, exists calls, snd (m h) = h ++ calls /\ Q calls.

(** At most [n] archived-thread requests, each for up to [batchLimit]
    threads and about the forum [forumId]. *)
Definition archivedWithin (n : nat) (calls : History) : Prop :=
  (countArchived calls <= n)%nat /\
  Forall (fun c => forall forumId opts,
              c = FetchArchived forumId opts ->
              ao_limit opts = Some batchLimit) calls.

(** A lookup, or the request to unarchive. *)
Definition lookupOrUnarchive (c : Call) : Prop :=
  isLookup c = true \/ exists thread reason, c = SetArchived thread false reason.

(** No hash sign in [s]. *)
Fixpoint hashFree (s : string) : bool :=
  match s with
  | EmptyString => true
  | String c s' => negb (Ascii.eqb c (ascii_of_nat 35)) && hashFree s'
  end.

(** The cursor that a [before] parameter amounts to: none for a missing,
    empty or zero one. *)
Definition cursorOf (before : option Js.StrOrNum) : option string :=
  match before with
  | Some (Js.Str s) => if s =? EmptyString then None else Some s
  | Some (Js.Num n) => if (n =? 0)%Z then None else Some (Js.toString (Js.Num n))
  | None => None
  end.

(* ================================================================= *)
(** ** Concrete clients with text channels *)

Module TextScenario.

Definition general : Channel :=
  mkChannel "600" "general" GuildText None false false 0 [] [].
Definition random1 : Channel :=
  mkChannel "601" "random" GuildText None false false 0 [] [].
Definition random2 : Channel :=
  mkChannel "602" "Random" GuildText None false false 0 [] [].
Definition voice : Channel :=
  mkChannel "603" "lobby" OtherChannel None false false 0 [] [].

(** The sample community with text channels in its cache. *)
Definition town : Client :=
  {| guilds_cache := guilds_cache Scenario.community;
     guilds_fetch := guilds_fetch Scenario.community;
     channels_cache := fun _ _ =>
       Collection.ofList ch_id [Scenario.qna; general; random1; random2; voice];
     channels_fetch := channels_fetch Scenario.community;
     threads_fetchActive := threads_fetchActive Scenario.community;
     threads_fetchArchived := threads_fetchArchived Scenario.community;
     messages_fetch := messages_fetch Scenario.community;
     setAppliedTags := setAppliedTags Scenario.community;
     setArchived := setArchived Scenario.community |}.

(** A bot over a fixed client: channels are fetched by id among [known],
    every message sent gets the id "9001". *)
Definition botOver (client : Client) (known : list Messaging.GuildChannel)
  : Messaging.Bot :=
  {| Messaging.bot_client := fun _ => client;
     Messaging.client_channels_fetch := fun _ id =>
       match find (fun c => ch_id (Messaging.gc_channel c) =? id) known with
       | Some c => Fulfilled (Some c)
       | None => Rejected UnknownEntity
       end;
     Messaging.channel_send := fun _ _ content =>
       Fulfilled (mkMessage "9001" "bot#0000" content) |}.

Definition inAlpha (c : Channel) : Messaging.GuildChannel :=
  Messaging.mkGuildChannel c Scenario.alpha.

(** One guild; the channels known by id are "general", the voice channel
    and a text channel of another guild. *)
Definition townBot : Messaging.Bot :=
  botOver town
    [inAlpha general; inAlpha voice;
     Messaging.mkGuildChannel
       (mkChannel "700" "elsewhere" GuildText None false false 0 [] [])
       Scenario.twin1].

(** Three guilds. *)
Definition twinsBot : Messaging.Bot :=
  botOver Scenario.twins [inAlpha general].

End TextScenario.

(* ================================================================= *)
(** ** Facts about collections *)

Module CollectionFacts.
Import Collection.

Section Facts.
Context {V : Type}.
Implicit Types (c other : t V) (k : string) (v : V).

Lemma keys_set_in c k v k' :
  In k' (keys (set k v c)) <-> k' = k \/ In k' (keys c).
Proof.
  induction c as [|[k0 v0] c IH]; simpl.
  - intuition.
  - destruct (String.eqb_spec k0 k) as [->|Hne]; simpl.
    + intuition.
    + rewrite IH. intuition.
Qed.

Lemma keys_set_nodup c k v :
  NoDup (keys c) -> NoDup (keys (set k v c)).
Proof.
  induction c as [|[k0 v0] c IH]; simpl; intros Hnd.
  - constructor; [intros []|constructor].
  - inversion Hnd as [|? ? Hnotin Hnd']; subst.
    destruct (String.eqb_spec k0 k) as [->|Hne]; simpl.
    + constructor; assumption.
    + constructor; [|apply IH; assumption].
      rewrite keys_set_in. intros [Heq|Hin]; [congruence|contradiction].
Qed.

Lemma size_set c k v : (size (set k v c) <= S (size c))%nat.
Proof.
  induction c as [|[k0 v0] c IH]; simpl; [lia|].
  destruct (String.eqb k0 k); simpl in *; lia.
Qed.

Lemma size_set_ge c k v : (size c <= size (set k v c))%nat.
Proof.
  induction c as [|[k0 v0] c IH]; simpl; [lia|].
  destruct (String.eqb k0 k); simpl in *; lia.
Qed.

Lemma keys_concat_in other : forall c k,
  In k (keys (concat c other)) <-> In k (keys c) \/ In k (keys other).
Proof.
  unfold concat.
  induction other as [|[k0 v0] other IH]; intros c k; simpl.
  - intuition.
  - rewrite IH, keys_set_in. intuition.
Qed.

Lemma keys_concat_nodup other : forall c,
  NoDup (keys c) -> NoDup (keys (concat c other)).
Proof.
  unfold concat.
  induction other as [|[k0 v0] other IH]; intros c Hnd; simpl.
  - assumption.
  - apply IH, keys_set_nodup, Hnd.
Qed.

Lemma size_concat other : forall c,
  (size (concat c other) <= size c + size other)%nat.
Proof.
  unfold concat.
  induction other as [|[k0 v0] other IH]; intros c; simpl.
  - lia.
  - specialize (IH (set k0 v0 c)). pose proof (size_set c k0 v0).
    unfold size in *. simpl. lia.
Qed.

Lemma size_concat_ge other : forall c,
  (size c <= size (concat c other))%nat.
Proof.
  unfold concat.
  induction other as [|[k0 v0] other IH]; intros c; simpl.
  - lia.
  - specialize (IH (set k0 v0 c)). pose proof (size_set_ge c k0 v0). lia.
Qed.

(** A key absent from [c] is appended by [set]. *)
Lemma set_fresh c k v :
  ~ In k (keys c) -> set k v c = c ++ [(k, v)].
Proof.
  induction c as [|[k0 v0] c IH]; simpl; intros Hnotin; [reflexivity|].
  destruct (String.eqb_spec k0 k) as [->|Hne].
  - exfalso. apply Hnotin. now left.
  - f_equal. apply IH. intros Hin. apply Hnotin. now right.
Qed.

(** Merging a collection whose keys are new and distinct appends it. *)
Lemma concat_fresh other : forall c,
  NoDup (keys other) ->
  (forall k, In k (keys other) -> ~ In k (keys c)) ->
  concat c other = c ++ other.
Proof.
  unfold concat.
  induction other as [|[k0 v0] other IH]; intros c Hnd Hfresh; simpl.
  - now rewrite app_nil_r.
  - inversion Hnd as [|? ? Hnotin Hnd']; subst.
    rewrite set_fresh by (apply Hfresh; now left).
    rewrite IH; [now rewrite <- app_assoc| assumption |].
    intros k Hk. unfold keys. rewrite map_app, in_app_iff. simpl.
    intros [Hin|[<-|[]]].
    + apply (Hfresh k); [now right|assumption].
    + contradiction.
Qed.

Lemma concat_empty other :
  NoDup (keys other) -> concat empty other = other.
Proof.
  intros Hnd. rewrite concat_fresh; [reflexivity|assumption|].
  intros k _ [].
Qed.

End Facts.
End CollectionFacts.


(* ================================================================= *)
(** ** Facts about strings *)

Module JsFacts.
Import Js.

Lemma prefix_iff_append (sub : string) : forall s,
  String.prefix sub s = true <-> exists post, s = (sub ++ post)%string.
Proof.
  induction sub as [|a sub IH]; intros s; simpl.
  - destruct s; split; intros _; eauto.
  - destruct s as [|b s]; simpl.
    + split; [discriminate|intros [post H]; discriminate].
    + destruct (ascii_dec a b) as [->|Hne].
      * rewrite IH. split; intros [post H]; exists post.
        -- now rewrite H.
        -- now injection H.
      * split; [discriminate|].
        intros [post H]. injection H as Hb _. congruence.
Qed.

Lemma includes_empty (sub : string) :
  includes EmptyString sub = String.prefix sub EmptyString.
Proof. simpl. apply orb_false_r. Qed.

Lemma includes_cons (c : ascii) (s sub : string) :
  includes (String c s) sub = String.prefix sub (String c s) || includes s sub.
Proof. reflexivity. Qed.

Lemma includes_iff (sub : string) : forall s,
  includes s sub = true <-> exists pre post, s = (pre ++ sub ++ post)%string.
Proof.
  induction s as [|c s IH].
  - rewrite includes_empty, prefix_iff_append. split.
    + intros [post H]. now exists EmptyString, post.
    + intros [pre [post H]]. destruct pre; simpl in H; [eauto|discriminate].
  - rewrite includes_cons, orb_true_iff, prefix_iff_append, IH. split.
    + intros [[post H]|[pre [post H]]].
      * now exists EmptyString, post.
      * exists (String c pre), post. simpl. now rewrite H.
    + intros [pre [post H]]. destruct pre as [|c' pre]; simpl in H.
      * left. eauto.
      * right. injection H as _ H. eauto.
Qed.

Lemma truthy_iff (s : string) : truthy s = true <-> s <> EmptyString.
Proof.
  unfold truthy. rewrite negb_true_iff. apply String.eqb_neq.
Qed.

End JsFacts.

(* ================================================================= *)
(** ** Facts about the sort *)

Module SortFacts.
Import JsArray.

Lemma insert_perm (x : Channel) (l : list Channel) :
  Permutation (x :: l) (insert byCreatedDesc x l).
Proof.
  induction l as [|y l IH]; simpl.
  - apply Permutation_refl.
  - destruct (byCreatedDesc x y <=? 0)%Z.
    + apply Permutation_refl.
    + eapply perm_trans; [apply perm_swap|]. now apply perm_skip.
Qed.

Lemma sort_perm (l : list Channel) :
  Permutation l (sort byCreatedDesc l).
Proof.
  induction l as [|x l IH]; simpl.
  - constructor.
  - eapply perm_trans; [apply perm_skip, IH|apply insert_perm].
Qed.

Lemma insert_sorted (x : Channel) (l : list Channel) :
  StronglySorted newestFirst l ->
  StronglySorted newestFirst (insert byCreatedDesc x l).
Proof.
  induction l as [|y l IH]; simpl; intros Hs.
  - constructor; constructor.
  - inversion Hs as [|? ? Hs' Hall]; subst.
    destruct (Z.leb_spec (byCreatedDesc x y) 0) as [Hle|Hgt];
      unfold byCreatedDesc in *.
    + constructor; [assumption|].
      constructor; [unfold newestFirst; lia|].
      eapply Forall_impl; [|exact Hall].
      unfold newestFirst. intros z Hz. lia.
    + constructor; [now apply IH|].
      eapply Permutation_Forall; [apply insert_perm|].
      constructor; [unfold newestFirst; lia|assumption].
Qed.

Lemma sort_sorted (l : list Channel) :
  StronglySorted newestFirst (sort byCreatedDesc l).
Proof.
  induction l as [|x l IH]; simpl.
  - constructor.
  - now apply insert_sorted.
Qed.

(** Insertion leaves the threads of one creation time in their order, the
    inserted one first. *)
Lemma insert_createdAt (ts : Z) (x : Channel) (l : list Channel) :
  createdAt ts (insert byCreatedDesc x l) = createdAt ts (x :: l).
Proof.
  induction l as [|y l IH]; simpl; [reflexivity|].
  destruct (Z.leb_spec (byCreatedDesc x y) 0) as [Hle|Hgt]; [reflexivity|].
  unfold byCreatedDesc in Hgt. simpl in *. rewrite IH.
  destruct (Z.eqb_spec (ch_createdTimestamp x) ts) as [Hx|Hx];
    destruct (Z.eqb_spec (ch_createdTimestamp y) ts) as [Hy|Hy];
    try reflexivity.
  lia.
Qed.

Lemma sort_stable (ts : Z) (l : list Channel) :
  createdAt ts (sort byCreatedDesc l) = createdAt ts l.
Proof.
  induction l as [|x l IH]; simpl; [reflexivity|].
  rewrite insert_createdAt. simpl. now rewrite IH.
Qed.

Lemma sortAndLimit_length (limit : nat) (l : list Channel) :
  (length (sortAndLimit limit l) <= limit)%nat.
Proof.
  unfold sortAndLimit, slice0. rewrite length_firstn. lia.
Qed.

Lemma firstn_In {A} (n : nat) : forall (l : list A) (x : A),
  In x (firstn n l) -> In x l.
Proof.
  induction n as [|n IH]; intros [|y l] x; simpl; try tauto.
  intros [->|Hin]; [now left|right; now apply IH].
Qed.

Lemma firstn_sorted {A} (R : A -> A -> Prop) (n : nat) : forall l,
  StronglySorted R l -> StronglySorted R (firstn n l).
Proof.
  induction n as [|n IH]; intros [|x l] Hs; simpl; try constructor.
  - inversion Hs; subst. now apply IH.
  - inversion Hs as [|? ? _ Hall]; subst.
    rewrite Forall_forall in *. intros y Hy. apply Hall.
    eapply firstn_In, Hy.
Qed.

Lemma sortAndLimit_sorted (limit : nat) (l : list Channel) :
  StronglySorted newestFirst (sortAndLimit limit l).
Proof.
  apply firstn_sorted, sort_sorted.
Qed.

End SortFacts.

(* ================================================================= *)
(** ** Facts about the handler monad *)

Module MonadFacts.

Lemma bind_Return {A B} (m : M A) (k : A -> M B) h a h' :
  m h = (Return a, h') -> bind m k h = k a h'.
Proof. unfold bind. now intros ->. Qed.

Lemma bind_Throw {A B} (m : M A) (k : A -> M B) h e h' :
  m h = (Throw e, h') -> bind m k h = (Throw e, h').
Proof. unfold bind. now intros ->. Qed.

Lemma await_Fulfilled {A} (c : Call) (answer : History -> Settled A) h a :
  answer h = Fulfilled a -> await c answer h = (Return a, h ++ [c]).
Proof. unfold await, bind, request, ret. now intros ->. Qed.

Lemma await_Rejected {A} (c : Call) (answer : History -> Settled A) h f :
  answer h = Rejected f -> await c answer h = (Throw (Rejection f), h ++ [c]).
Proof. unfold await, bind, request, throw. now intros ->. Qed.

Section Issues.
Variable P : Call -> Prop.

Lemma issues_ret {A} (a : A) : issues P (ret a).
Proof. intros h. exists []. simpl. now rewrite app_nil_r. Qed.

Lemma issues_throw {A} (e : Exn) : issues P (@throw A e).
Proof. intros h. exists []. simpl. now rewrite app_nil_r. Qed.

Lemma issues_peek {A} (read : History -> A) : issues P (peek read).
Proof. intros h. exists []. simpl. now rewrite app_nil_r. Qed.

Lemma issues_request {A} (c : Call) (answer : History -> Settled A) :
  P c -> issues P (request c answer).
Proof. intros Hc h. exists [c]. simpl. auto. Qed.

Lemma issues_bind {A B} (m : M A) (k : A -> M B) :
  issues P m -> (forall a, issues P (k a)) -> issues P (bind m k).
Proof.
  intros Hm Hk h. unfold bind.
  destruct (Hm h) as [calls1 [Heq1 Hall1]].
  destruct (m h) as [[a|e] h1]; simpl in Heq1; subst h1.
  - destruct (Hk a (h ++ calls1)) as [calls2 [Heq2 Hall2]].
    exists (calls1 ++ calls2). rewrite Heq2, app_assoc. split; [reflexivity|].
    apply Forall_app. now split.
  - exists calls1. now split.
Qed.

Lemma issues_await {A} (c : Call) (answer : History -> Settled A) :
  P c -> issues P (await c answer).
Proof.
  intros Hc. unfold await. apply issues_bind; [now apply issues_request|].
  intros [a|f]; [apply issues_ret|apply issues_throw].
Qed.

End Issues.

Lemma issues_impl {A} (P Q : Call -> Prop) (m : M A) :
  (forall c, P c -> Q c) -> issues P m -> issues Q m.
Proof.
  intros Himpl Hm h. destruct (Hm h) as [calls [Heq Hall]].
  exists calls. split; [assumption|]. eapply Forall_impl; eauto.
Qed.

(** What a run that is known tells about [issues]. *)
Lemma issues_run {A} (P : Call -> Prop) (m : M A) h r h' :
  issues P m -> m h = (r, h') -> exists calls, h' = h ++ calls /\ Forall P calls.
Proof.
  intros Hm Hrun. destruct (Hm h) as [calls [Heq Hall]].
  rewrite Hrun in Heq. simpl in Heq. eauto.
Qed.

End MonadFacts.

Create HintDb issues.

#[local] Hint Resolve MonadFacts.issues_ret MonadFacts.issues_throw
  MonadFacts.issues_peek MonadFacts.issues_request MonadFacts.issues_await
  : issues.

(** Breaks a handler body down along its binds and case distinctions. *)
Ltac issues_step :=
  match goal with
  | |- issues _ (bind _ _) => apply MonadFacts.issues_bind; [|intros ?]
  | |- issues _ (match ?x with _ => _ end) => destruct x
  | |- issues _ (if ?b then _ else _) => destruct b
  | |- issues _ (let '(_, _) := ?p in _) => destruct p
  | |- issues _ _ => solve [auto with issues]
  end.

(* ================================================================= *)
(** ** Facts about the resolvers *)

Module ResolverFacts.

Section WithClient.
Variable client : Client.

Lemma findGuild_issues (guildIdentifier : option string) :
  issues (fun c => isLookup c = true) (findGuild client guildIdentifier).
Proof.
  unfold findGuild. repeat issues_step.
Qed.

Lemma resolveForum_issues (guild : Guild) (channelIdentifier : string) :
  issues (fun c => isLookup c = true) (resolveForum client guild channelIdentifier).
Proof.
  unfold resolveForum. repeat issues_step.
Qed.

End WithClient.

Lemma lookup_not_mutating (c : Call) : isLookup c = true -> mutating c = false.
Proof. destruct c; simpl; congruence. Qed.

Lemma lookup_not_archived (c : Call) :
  isLookup c = true -> isFetchArchived c = false.
Proof. destruct c; simpl; congruence. Qed.

End ResolverFacts.

(* ================================================================= *)
(** ** unarchive-thread *)

(** C9.  When [unarchive-thread] resolves its guild and the thread it
    fetches is a thread channel that is not archived, the handler returns
    the text saying that the thread is already active, and none of the
    requests it issued changes remote state: neither [setArchived] nor
    [setAppliedTags] is called. *)
Theorem unarchive_active_thread_is_noop
  (client : Client) (server : option string) (threadId : string)
  (reason : option string) (h h1 : History) (guild : Guild) (thread : Channel) :
  findGuild client server h = (Return guild, h1) ->
  channels_fetch client h1 guild threadId = Fulfilled (Some thread) ->
  isThreadChannel thread = true ->
  ch_archived thread = false ->
  exists calls,
    unarchiveThread client server threadId reason h =
      (Return (alreadyActiveMessage thread), h ++ calls) /\
    Forall (fun c => mutating c = false) calls.
Proof.
  intros Hguild Hfetch Hthread Hactive.
  destruct (MonadFacts.issues_run _ _ _ _ _
              (ResolverFacts.findGuild_issues client server) Hguild)
    as [calls1 [-> Hlookups]].
  exists (calls1 ++ [ChannelsFetch (guild_id guild) threadId]). split.
  - unfold unarchiveThread.
    rewrite (MonadFacts.bind_Return _ _ _ _ _ Hguild).
    rewrite (MonadFacts.bind_Return _ _ _ _ _
               (MonadFacts.await_Fulfilled _
                  (fun h => channels_fetch client h guild threadId) _ _ Hfetch)).
    rewrite Hthread, Hactive. simpl. unfold ret. now rewrite app_assoc.
  - apply Forall_app. split.
    + eapply Forall_impl; [|exact Hlookups].
      exact ResolverFacts.lookup_not_mutating.
    + constructor; [reflexivity|constructor].
Qed.

(** The handler on the active thread "Library" of the sample community. *)
Lemma unarchive_active_thread_is_noop_witness :
  exists calls,
    unarchiveThread Scenario.community None "401" (Some "reopen") [] =
      (Return (alreadyActiveMessage Scenario.library), [] ++ calls) /\
    Forall (fun c => mutating c = false) calls.
Proof.
  apply (unarchive_active_thread_is_noop Scenario.community None "401"
           (Some "reopen") [] [] Scenario.alpha Scenario.library);
    reflexivity.
Defined.

(* ================================================================= *)
(** ** add-thread-tags *)

Module TagFacts.

Lemma find_none_existsb {A} (p : A -> bool) (l : list A) :
  JsArray.find p l = None <-> existsb p l = false.
Proof.
  unfold JsArray.find.
  induction l as [|x l IH]; simpl; [tauto|].
  destruct (p x); simpl; [split; discriminate|exact IH].
Qed.


(** The loop collects the unmatched names behind those it started with. *)
Lemma resolveTagNames_from (forumChannel : Channel) (tagNames : list string) :
  forall tagIds notFoundTags,
    snd (fold_left
           (fun acc tagName =>
              let '(tagIds, notFoundTags) := acc in
              match JsArray.find
                      (fun tag => Js.toLowerCase (tag_name tag) =?
                                  Js.toLowerCase tagName)
                      (ch_availableTags forumChannel) with
              | Some foundTag => (tagIds ++ [tag_id foundTag], notFoundTags)
              | None => (tagIds, notFoundTags ++ [tagName])
              end)
           tagNames (tagIds, notFoundTags)) =
    notFoundTags ++ unmatchedNames forumChannel tagNames.
Proof.
  induction tagNames as [|n tagNames IH]; intros tagIds notFoundTags; simpl.
  - now rewrite app_nil_r.
  - unfold tagNameMatches at 1.
    destruct (JsArray.find _ (ch_availableTags forumChannel)) as [tag|] eqn:Hfind.
    + rewrite IH.
      destruct (existsb _ (ch_availableTags forumChannel)) eqn:Hex; [reflexivity|].
      apply find_none_existsb in Hex. congruence.
    + rewrite IH. apply find_none_existsb in Hfind. rewrite Hfind. simpl.
      now rewrite <- app_assoc.
Qed.

Lemma resolveTagNames_unmatched (forumChannel : Channel) (tagNames : list string) :
  snd (resolveTagNames forumChannel tagNames) =
  unmatchedNames forumChannel tagNames.
Proof.
  unfold resolveTagNames. now rewrite resolveTagNames_from.
Qed.

End TagFacts.



(* ================================================================= *)
(** ** list-threads and search-threads: the shape of a run *)

Module RunFacts.

Section WithClient.
Variable client : Client.

Lemma fetchActiveThreads_returns (forumChannel : Channel) h active :
  threads_fetchActive client h forumChannel = Fulfilled active ->
  fetchActiveThreads client forumChannel h =
    (Return (Collection.concat Collection.empty active),
     h ++ [FetchActive (ch_id forumChannel)]).
Proof.
  intros Hactive. unfold fetchActiveThreads.
  now rewrite (MonadFacts.bind_Return _ _ _ _ _
                 (MonadFacts.await_Fulfilled _
                    (fun h => threads_fetchActive client h forumChannel)
                    _ _ Hactive)).
Qed.

Lemma listThreads_returns (server : option string) (channelIdentifier : string)
  (limit : nat) (includeArchived : bool) h h1 h2 h3 guild forumChannel active all :
  findGuild client server h = (Return guild, h1) ->
  resolveForum client guild channelIdentifier h1 = (Return forumChannel, h2) ->
  threads_fetchActive client h2 forumChannel = Fulfilled active ->
  (if includeArchived
   then fetchArchivedOnce client forumChannel
          (Collection.concat Collection.empty active)
   else ret (Collection.concat Collection.empty active))
    (h2 ++ [FetchActive (ch_id forumChannel)]) = (Return all, h3) ->
  listThreads client server channelIdentifier limit includeArchived h =
    (Return
       (mkListThreadsResult (ch_name forumChannel) (guild_name guild)
          (length (sortAndLimit limit (Collection.values all)))
          includeArchived
          (map (formatThread forumChannel)
               (sortAndLimit limit (Collection.values all)))),
     h3).
Proof.
  intros Hguild Hforum Hactive Hall. unfold listThreads.
  rewrite (MonadFacts.bind_Return _ _ _ _ _ Hguild).
  rewrite (MonadFacts.bind_Return _ _ _ _ _ Hforum).
  rewrite (MonadFacts.bind_Return _ _ _ _ _
             (fetchActiveThreads_returns _ _ _ Hactive)).
  rewrite (MonadFacts.bind_Return _ _ _ _ _ Hall).
  unfold ret. now rewrite length_map.
Qed.

Lemma searchThreads_returns (server : option string) (channelIdentifier : string)
  (query : string) (limit : nat) (includeArchived exactMatch : bool)
  h h1 h2 h3 guild forumChannel active all :
  findGuild client server h = (Return guild, h1) ->
  resolveForum client guild channelIdentifier h1 = (Return forumChannel, h2) ->
  threads_fetchActive client h2 forumChannel = Fulfilled active ->
  (if includeArchived
   then fetchAllArchived client maxFetches forumChannel None
          (Collection.concat Collection.empty active)
   else ret (Collection.concat Collection.empty active))
    (h2 ++ [FetchActive (ch_id forumChannel)]) = (Return all, h3) ->
  searchThreads client server channelIdentifier query limit includeArchived
    exactMatch h =
    (Return
       (mkSearchThreadsResult (ch_name forumChannel) (guild_name guild)
          query exactMatch
          (length (sortAndLimit limit
                     (filterThreads query exactMatch (Collection.values all))))
          (length (filterThreads query exactMatch (Collection.values all)))
          includeArchived
          (map (formatThread forumChannel)
               (sortAndLimit limit
                  (filterThreads query exactMatch (Collection.values all))))),
     h3).
Proof.
  intros Hguild Hforum Hactive Hall. unfold searchThreads.
  rewrite (MonadFacts.bind_Return _ _ _ _ _ Hguild).
  rewrite (MonadFacts.bind_Return _ _ _ _ _ Hforum).
  rewrite (MonadFacts.bind_Return _ _ _ _ _
             (fetchActiveThreads_returns _ _ _ Hactive)).
  rewrite (MonadFacts.bind_Return _ _ _ _ _ Hall).
  unfold ret. now rewrite length_map.
Qed.

End WithClient.
End RunFacts.

(* ================================================================= *)
(** ** search-threads: the name filter *)

Module FilterFacts.

Lemma matchesQuery_exact (query : string) (thread : Channel) :
  matchesQuery query true thread = true <->
  equalsIgnoreCase (ch_name thread) query.
Proof.
  unfold matchesQuery, equalsIgnoreCase. apply String.eqb_eq.
Qed.

Lemma matchesQuery_contains (query : string) (thread : Channel) :
  matchesQuery query false thread = true <->
  containsIgnoreCase (ch_name thread) query.
Proof.
  unfold matchesQuery, containsIgnoreCase, containsSubstring.
  apply JsFacts.includes_iff.
Qed.

End FilterFacts.



(* ================================================================= *)
(** ** list-threads and search-threads: order and limit *)

(** C8.  The sort used by [list-threads] and [search-threads] rearranges
    the threads, puts them newest first, and keeps the threads of equal
    [createdTimestamp] in their input order.  A run of either handler that
    collects the threads [all] returns the first [limit] threads of the
    sorted survivors.  Threads created at 5, 3, 3 and 1 stay as they are,
    and from the order 1, 3, 5, 3 they come out as 5, 3, 3, 1 with the two
    threads created at 3 in their input order. *)
Theorem threads_sorted_newest_first_stable :
  (forall threads,
     let sorted := JsArray.sort byCreatedDesc threads in
     Permutation threads sorted /\
     StronglySorted newestFirst sorted /\
     (forall ts, createdAt ts sorted = createdAt ts threads)) /\
  (forall limit threads,
     sortAndLimit limit threads =
     firstn limit (JsArray.sort byCreatedDesc threads)) /\
  (forall client server channelIdentifier limit (includeArchived : bool)
          h h1 h2 h3 guild forumChannel active all,
     findGuild client server h = (Return guild, h1) ->
     resolveForum client guild channelIdentifier h1 = (Return forumChannel, h2) ->
     threads_fetchActive client h2 forumChannel = Fulfilled active ->
     (if includeArchived
      then fetchArchivedOnce client forumChannel
             (Collection.concat Collection.empty active)
      else ret (Collection.concat Collection.empty active))
       (h2 ++ [FetchActive (ch_id forumChannel)]) = (Return all, h3) ->
     exists r,
       listThreads client server channelIdentifier limit includeArchived h =
         (Return r, h3) /\
       lt_threads r =
         map (formatThread forumChannel)
           (firstn limit (JsArray.sort byCreatedDesc (Collection.values all)))) /\
  (forall client server channelIdentifier query limit
          (includeArchived exactMatch : bool)
          h h1 h2 h3 guild forumChannel active all,
     findGuild client server h = (Return guild, h1) ->
     resolveForum client guild channelIdentifier h1 = (Return forumChannel, h2) ->
     threads_fetchActive client h2 forumChannel = Fulfilled active ->
     (if includeArchived
      then fetchAllArchived client maxFetches forumChannel None
             (Collection.concat Collection.empty active)
      else ret (Collection.concat Collection.empty active))
       (h2 ++ [FetchActive (ch_id forumChannel)]) = (Return all, h3) ->
     exists r,
       searchThreads client server channelIdentifier query limit
         includeArchived exactMatch h = (Return r, h3) /\
       st_threads r =
         map (formatThread forumChannel)
           (firstn limit
              (JsArray.sort byCreatedDesc
                 (filterThreads query exactMatch (Collection.values all))))) /\
  sortAndLimit 4
    [Scenario.library; Scenario.library2; Scenario.libraryNotes; Scenario.oldest] =
    [Scenario.library; Scenario.library2; Scenario.libraryNotes; Scenario.oldest] /\
  sortAndLimit 4
    [Scenario.oldest; Scenario.libraryNotes; Scenario.library; Scenario.library2] =
    [Scenario.library; Scenario.libraryNotes; Scenario.library2; Scenario.oldest].
Proof.
  split; [|split; [|split; [|split; [|split; reflexivity]]]].
  - intros threads sorted. subst sorted. split; [|split].
    + apply SortFacts.sort_perm.
    + apply SortFacts.sort_sorted.
    + intros ts. apply SortFacts.sort_stable.
  - reflexivity.
  - intros client server channelIdentifier limit includeArchived
      h h1 h2 h3 guild forumChannel active all Hguild Hforum Hactive Hall.
    eexists. split.
    + eapply RunFacts.listThreads_returns; eassumption.
    + reflexivity.
  - intros client server channelIdentifier query limit includeArchived
      exactMatch h h1 h2 h3 guild forumChannel active all
      Hguild Hforum Hactive Hall.
    eexists. split.
    + eapply RunFacts.searchThreads_returns; eassumption.
    + reflexivity.
Qed.

(** The listing of the active threads of the sample community, limit 3. *)
Lemma threads_sorted_newest_first_stable_witness :
  let all :=
    Collection.ofList ch_id
      [Scenario.library; Scenario.library2; Scenario.libraryNotes;
       Scenario.oldest] in
  exists r,
    listThreads Scenario.community None "qna" 3 false [] =
      (Return r, [ChannelsFetch "100" "qna"; FetchActive "300"]) /\
    lt_threads r =
      map (formatThread Scenario.qna)
        (firstn 3 (JsArray.sort byCreatedDesc (Collection.values all))).
Proof.
  apply (proj1 (proj2 (proj2 threads_sorted_newest_first_stable))
           Scenario.community None "qna" 3 false
           [] [] [ChannelsFetch "100" "qna"] _ Scenario.alpha Scenario.qna
           (Collection.ofList ch_id
              [Scenario.library; Scenario.library2; Scenario.libraryNotes;
               Scenario.oldest]));
    reflexivity.
Defined.

(* ================================================================= *)
(** ** search-threads: the archived-thread pagination *)

Module PaginationFacts.

Lemma countArchived_app (calls1 calls2 : History) :
  countArchived (calls1 ++ calls2) = (countArchived calls1 + countArchived calls2)%nat.
Proof.
  unfold countArchived. now rewrite filter_app, length_app.
Qed.

Lemma countArchived_all (calls : History) :
  Forall (fun c => isFetchArchived c = true) calls ->
  countArchived calls = length calls.
Proof.
  unfold countArchived. induction 1 as [|c calls Hc _ IH]; simpl.
  - reflexivity.
  - rewrite Hc. simpl. now rewrite IH.
Qed.

Lemma countArchived_none (calls : History) :
  Forall (fun c => isFetchArchived c = false) calls ->
  countArchived calls = 0%nat.
Proof.
  unfold countArchived. induction 1 as [|c calls Hc _ IH]; simpl.
  - reflexivity.
  - now rewrite Hc.
Qed.

Lemma Some_eq {A} (a b : A) : Some a = Some b -> a = b.
Proof. now intros [= ->]. Qed.

Lemma Fulfilled_eq {A} (a b : A) : Fulfilled a = Fulfilled b -> a = b.
Proof. now intros [= ->]. Qed.

Lemma lastKey_nonempty {V} (c : Collection.t V) :
  (0 < Collection.size c)%nat ->
  exists k, lastKey c = Some k /\ In k (Collection.keys c).
Proof.
  unfold lastKey, Collection.size. intros Hpos.
  destruct (rev (Collection.keys c)) as [|k ks] eqn:Hrev.
  - apply (f_equal (@length string)) in Hrev.
    rewrite length_rev in Hrev. unfold Collection.keys in Hrev.
    rewrite length_map in Hrev. simpl in Hrev. lia.
  - exists k. split; [reflexivity|].
    apply in_rev. rewrite Hrev. now left.
Qed.

Lemma archivedOptions_cursor (k : string) :
  Js.truthy k = true ->
  archivedOptions (Some k) = mkArchivedOptions (Some batchLimit) (Some k).
Proof. unfold archivedOptions. simpl. now intros ->. Qed.

Section WithClient.
Variable client : Client.
Variable forumChannel : Channel.

(** One turn of the loop. *)
Lemma fetchAllArchived_step (remaining : nat) before all h batch :
  threads_fetchArchived client h forumChannel (archivedOptions before) =
    Fulfilled batch ->
  fetchAllArchived client (S remaining) forumChannel before all h =
    if (Collection.size batch =? 0)%nat
    then (Return all,
          h ++ [FetchArchived (ch_id forumChannel) (archivedOptions before)])
    else fetchAllArchived client remaining forumChannel (lastKey batch)
           (Collection.concat all batch)
           (h ++ [FetchArchived (ch_id forumChannel) (archivedOptions before)]).
Proof.
  intros Hfetch. simpl.
  rewrite (MonadFacts.bind_Return _ _ _ _ _
             (MonadFacts.await_Fulfilled _
                (fun h => threads_fetchArchived client h forumChannel
                            (archivedOptions before)) _ _ Hfetch)).
  now destruct (Collection.size batch =? 0)%nat.
Qed.

(** Against a source that is never empty the loop runs [remaining] turns
    and then returns. *)
Lemma fetchAllArchived_capped :
  neverEmpty client forumChannel ->
  forall remaining before all h,
  exists result calls,
    fetchAllArchived client remaining forumChannel before all h =
      (Return result, h ++ calls) /\
    length calls = remaining /\
    Forall (fun c => exists opts,
                c = FetchArchived (ch_id forumChannel) opts /\
                ao_limit opts = Some batchLimit) calls /\
    (withinBatchLimit client forumChannel ->
     (Collection.size result <= Collection.size all + remaining * batchLimit)%nat).
Proof.
  intros Hsource.
  induction remaining as [|remaining IH]; intros before all h.
  - exists all, []. simpl. unfold ret. rewrite app_nil_r.
    repeat split; [constructor|lia].
  - destruct (Hsource h (archivedOptions before) eq_refl)
      as [batch [Hfetch Hpos]].
    rewrite (fetchAllArchived_step _ _ _ _ _ Hfetch).
    destruct (Nat.eqb_spec (Collection.size batch) 0) as [Hzero|_]; [lia|].
    destruct (IH (lastKey batch) (Collection.concat all batch)
                (h ++ [FetchArchived (ch_id forumChannel) (archivedOptions before)]))
      as [result [calls [Hrun [Hlen [Hcalls Hsize]]]]].
    exists result,
      (FetchArchived (ch_id forumChannel) (archivedOptions before) :: calls).
    rewrite Hrun, <- app_assoc. cbn [app length].
    repeat split.
    + now rewrite Hlen.
    + constructor; [|assumption]. now eexists.
    + intros Hlimit. specialize (Hsize Hlimit).
      pose proof (Hlimit h _ batch batchLimit Hfetch eq_refl) as Hle.
      pose proof (CollectionFacts.size_concat batch all).
      unfold Collection.size in *. lia.
Qed.

End WithClient.
End PaginationFacts.

(** C3.  Against a source of archived threads that answers every request
    for up to 100 threads with a batch that is not empty, the pagination loop of [search-threads]
    returns normally after exactly [maxFetches] = 10 requests, each an
    archived-thread request for up to 100 threads; when the source returns
    no more threads than a request allows, the loop has added at most
    10 * 100 = 1000 threads to those it started with.  A run of the handler
    with [includeArchived] set then issues exactly 10 archived-thread
    requests and returns a result. *)
Theorem archived_pagination_stops_at_cap :
  maxFetches = 10%nat /\ batchLimit = 100%nat /\
  (forall client forumChannel all h,
     neverEmpty client forumChannel ->
     exists result calls,
       fetchAllArchived client maxFetches forumChannel None all h =
         (Return result, h ++ calls) /\
       length calls = 10%nat /\
       Forall (fun c => exists opts,
                   c = FetchArchived (ch_id forumChannel) opts /\
                   ao_limit opts = Some 100%nat) calls /\
       (withinBatchLimit client forumChannel ->
        (Collection.size result <= Collection.size all + 1000)%nat)) /\
  (forall client server channelIdentifier query limit exactMatch
          h h1 h2 guild forumChannel active,
     findGuild client server h = (Return guild, h1) ->
     resolveForum client guild channelIdentifier h1 = (Return forumChannel, h2) ->
     threads_fetchActive client h2 forumChannel = Fulfilled active ->
     neverEmpty client forumChannel ->
     exists r calls,
       searchThreads client server channelIdentifier query limit true
         exactMatch h = (Return r, h ++ calls) /\
       countArchived calls = 10%nat).
Proof.
  split; [reflexivity|split; [reflexivity|split]].
  - intros client forumChannel all h Hsource.
    exact (PaginationFacts.fetchAllArchived_capped client forumChannel Hsource
             maxFetches None all h).
  - intros client server channelIdentifier query limit exactMatch
      h h1 h2 guild forumChannel active Hguild Hforum Hactive Hsource.
    destruct (MonadFacts.issues_run _ _ _ _ _
                (ResolverFacts.findGuild_issues client server) Hguild)
      as [calls1 [-> Hlookups1]].
    destruct (MonadFacts.issues_run _ _ _ _ _
                (ResolverFacts.resolveForum_issues client guild channelIdentifier)
                Hforum)
      as [calls2 [-> Hlookups2]].
    destruct (PaginationFacts.fetchAllArchived_capped client forumChannel Hsource
                maxFetches None (Collection.concat Collection.empty active)
                (((h ++ calls1) ++ calls2) ++ [FetchActive (ch_id forumChannel)]))
      as [all [calls3 [Hrun [Hlen [Hcalls _]]]]].
    eexists.
    exists (calls1 ++ calls2 ++ [FetchActive (ch_id forumChannel)] ++ calls3).
    split.
    + rewrite (RunFacts.searchThreads_returns client server channelIdentifier
                 query limit true exactMatch _ _ _ _ _ _ _ _
                 Hguild Hforum Hactive Hrun).
      f_equal. now rewrite <- !app_assoc.
    + rewrite !PaginationFacts.countArchived_app.
      rewrite (PaginationFacts.countArchived_none calls1),
              (PaginationFacts.countArchived_none calls2).
      * rewrite (PaginationFacts.countArchived_all calls3);
          [rewrite Hlen; reflexivity|].
        eapply Forall_impl; [|exact Hcalls].
        intros c [opts [-> _]]. reflexivity.
      * eapply Forall_impl; [exact ResolverFacts.lookup_not_archived|assumption].
      * eapply Forall_impl; [exact ResolverFacts.lookup_not_archived|assumption].
Qed.

(** The loop against the client that answers every request with the same
    hundred threads. *)
Lemma archived_pagination_stops_at_cap_witness :
  exists result calls,
    fetchAllArchived Scenario.endless maxFetches Scenario.qna None
      Collection.empty [] = (Return result, [] ++ calls) /\
    length calls = 10%nat /\
    Forall (fun c => exists opts,
                c = FetchArchived (ch_id Scenario.qna) opts /\
                ao_limit opts = Some 100%nat) calls /\
    (Collection.size result <=
     Collection.size (@Collection.empty Channel) + 1000)%nat.
Proof.
  assert (Hlength : length Scenario.batch1 = 100%nat)
    by (vm_compute; reflexivity).
  destruct (proj1 (proj2 (proj2 archived_pagination_stops_at_cap))
              Scenario.endless Scenario.qna Collection.empty [])
    as [result [calls [Hrun [Hlen [Hcalls Hbound]]]]].
  - intros h opts Hopts. exists (firstn 100 Scenario.batch1). split.
    + cbv [Scenario.endless threads_fetchArchived]. now rewrite Hopts.
    + unfold Collection.size. rewrite length_firstn, Hlength. simpl. lia.
  - exists result, calls. repeat split; try assumption.
    apply Hbound. intros h opts batch n Hfetch Hopts.
    cbv [Scenario.endless threads_fetchArchived] in Hfetch.
    rewrite Hopts in Hfetch. apply PaginationFacts.Fulfilled_eq in Hfetch.
    subst batch. unfold Collection.size. rewrite length_firstn. lia.
Defined.

(** C4.  Let the source of archived threads answer the requests issued
    after [h] with three batches of 100 threads and then an empty batch,
    all thread ids being non-empty strings.  The pagination loop of
    [search-threads] then issues exactly four requests, each for up to 100
    threads: the first without cursor, each later one with the last id of
    the batch before it as [before].  It returns normally, with the three
    batches merged in turn into the threads it started with: the ids of the
    result are those of the start and of the three batches, and they stay
    pairwise distinct. *)
Theorem archived_pagination_ends_on_empty_batch
  (client : Client) (forumChannel : Channel) (h : History)
  (all b1 b2 b3 : Collection.t Channel) :
  scripted client forumChannel h [b1; b2; b3; Collection.empty] ->
  Collection.size b1 = 100%nat ->
  Collection.size b2 = 100%nat ->
  Collection.size b3 = 100%nat ->
  forallb Js.truthy (Collection.keys b1 ++ Collection.keys b2 ++ Collection.keys b3)
    = true ->
  exists k1 k2 k3 result,
    lastKey b1 = Some k1 /\ lastKey b2 = Some k2 /\ lastKey b3 = Some k3 /\
    fetchAllArchived client maxFetches forumChannel None all h =
      (Return result,
       h ++ [FetchArchived (ch_id forumChannel) (mkArchivedOptions (Some 100%nat) None);
             FetchArchived (ch_id forumChannel) (mkArchivedOptions (Some 100%nat) (Some k1));
             FetchArchived (ch_id forumChannel) (mkArchivedOptions (Some 100%nat) (Some k2));
             FetchArchived (ch_id forumChannel) (mkArchivedOptions (Some 100%nat) (Some k3))]) /\
    result =
      Collection.concat (Collection.concat (Collection.concat all b1) b2) b3 /\
    (forall k,
       In k (Collection.keys result) <->
       In k (Collection.keys all) \/ In k (Collection.keys b1) \/
       In k (Collection.keys b2) \/ In k (Collection.keys b3)) /\
    (NoDup (Collection.keys all) -> NoDup (Collection.keys result)).
Proof.
  intros Hscript Hsize1 Hsize2 Hsize3 Hids.
  rewrite forallb_forall in Hids.
  destruct (PaginationFacts.lastKey_nonempty b1) as [k1 [Hk1 Hin1]]; [lia|].
  destruct (PaginationFacts.lastKey_nonempty b2) as [k2 [Hk2 Hin2]]; [lia|].
  destruct (PaginationFacts.lastKey_nonempty b3) as [k3 [Hk3 Hin3]]; [lia|].
  assert (Ht1 : Js.truthy k1 = true) by (apply Hids; rewrite !in_app_iff; tauto).
  assert (Ht2 : Js.truthy k2 = true) by (apply Hids; rewrite !in_app_iff; tauto).
  assert (Ht3 : Js.truthy k3 = true) by (apply Hids; rewrite !in_app_iff; tauto).
  set (c0 := FetchArchived (ch_id forumChannel) (archivedOptions None)).
  set (c1 := FetchArchived (ch_id forumChannel) (archivedOptions (Some k1))).
  set (c2 := FetchArchived (ch_id forumChannel) (archivedOptions (Some k2))).
  set (c3 := FetchArchived (ch_id forumChannel) (archivedOptions (Some k3))).
  assert (Hf1 : threads_fetchArchived client h forumChannel (archivedOptions None)
                = Fulfilled b1).
  { rewrite <- (app_nil_r h) at 1. now apply Hscript. }
  assert (Hf2 : threads_fetchArchived client (h ++ [c0]) forumChannel
                  (archivedOptions (Some k1)) = Fulfilled b2).
  { now apply Hscript. }
  assert (Hf3 : threads_fetchArchived client ((h ++ [c0]) ++ [c1]) forumChannel
                  (archivedOptions (Some k2)) = Fulfilled b3).
  { rewrite <- app_assoc. now apply Hscript. }
  assert (Hf4 : threads_fetchArchived client (((h ++ [c0]) ++ [c1]) ++ [c2])
                  forumChannel (archivedOptions (Some k3))
                = Fulfilled Collection.empty).
  { rewrite <- !app_assoc. now apply Hscript. }
  exists k1, k2, k3,
    (Collection.concat (Collection.concat (Collection.concat all b1) b2) b3).
  repeat split; try assumption.
  - unfold maxFetches.
    rewrite (PaginationFacts.fetchAllArchived_step _ _ _ _ _ _ _ Hf1),
            Hsize1, Hk1. cbn [Nat.eqb].
    rewrite (PaginationFacts.fetchAllArchived_step _ _ _ _ _ _ _ Hf2),
            Hsize2, Hk2. cbn [Nat.eqb].
    rewrite (PaginationFacts.fetchAllArchived_step _ _ _ _ _ _ _ Hf3),
            Hsize3, Hk3. cbn [Nat.eqb].
    rewrite (PaginationFacts.fetchAllArchived_step _ _ _ _ _ _ _ Hf4).
    cbn [Collection.size Collection.empty length Nat.eqb].
    subst c0 c1 c2 c3.
    rewrite !PaginationFacts.archivedOptions_cursor by assumption.
    rewrite <- !app_assoc. reflexivity.
  - rewrite !CollectionFacts.keys_concat_in. tauto.
  - rewrite !CollectionFacts.keys_concat_in. tauto.
  - intros Hnd. now do 3 apply CollectionFacts.keys_concat_nodup.
Qed.

(** The loop against the client with three numbered batches of 100. *)
Lemma archived_pagination_ends_on_empty_batch_witness :
  exists k1 k2 k3 result,
    lastKey Scenario.batch1 = Some k1 /\
    lastKey Scenario.batch2 = Some k2 /\
    lastKey Scenario.batch3 = Some k3 /\
    fetchAllArchived Scenario.threeBatches maxFetches Scenario.qna None
      Collection.empty [] =
      (Return result,
       [] ++ [FetchArchived "300" (mkArchivedOptions (Some 100%nat) None);
              FetchArchived "300" (mkArchivedOptions (Some 100%nat) (Some k1));
              FetchArchived "300" (mkArchivedOptions (Some 100%nat) (Some k2));
              FetchArchived "300" (mkArchivedOptions (Some 100%nat) (Some k3))]) /\
    result =
      Collection.concat
        (Collection.concat
           (Collection.concat Collection.empty Scenario.batch1)
           Scenario.batch2)
        Scenario.batch3 /\
    (forall k,
       In k (Collection.keys result) <->
       In k (Collection.keys (@Collection.empty Channel)) \/
       In k (Collection.keys Scenario.batch1) \/
       In k (Collection.keys Scenario.batch2) \/
       In k (Collection.keys Scenario.batch3)) /\
    (NoDup (Collection.keys (@Collection.empty Channel)) ->
     NoDup (Collection.keys result)).
Proof.
  apply (archived_pagination_ends_on_empty_batch Scenario.threeBatches
           Scenario.qna [] Collection.empty
           Scenario.batch1 Scenario.batch2 Scenario.batch3);
    try (vm_compute; reflexivity).
  intros calls opts batch Hnth.
  change (Fulfilled
            (nth (countArchived calls)
               [Scenario.batch1; Scenario.batch2; Scenario.batch3]
               Collection.empty) = Fulfilled batch).
  destruct (countArchived calls) as [|[|[|[|n]]]];
    cbn [nth_error nth] in Hnth |- *;
    try (apply PaginationFacts.Some_eq in Hnth; now rewrite Hnth).
  destruct n; discriminate.
Defined.

(* ================================================================= *)
(** ** list-threads: the archived threads *)

(** C1, as stated, fails: in the sample community, whose archived threads
    come in two batches, [list-threads] with [includeArchived] issues one
    archived-thread request, without limit or cursor, and returns the
    threads of the first batch only; the paginated fetch issues three
    requests and also finds the thread "502" of the second batch. *)
Lemma list_threads_does_not_paginate :
  (exists r,
     listThreads Scenario.community None "qna" 50 true [] =
       (Return r,
        [ChannelsFetch "100" "qna"; FetchActive "300";
         FetchArchived "300" (mkArchivedOptions None None)]) /\
     map threadId (lt_threads r) = ["401"; "402"; "403"; "501"; "404"]) /\
  (exists r,
     listThreadsPaginated Scenario.community None "qna" 50 true [] =
       (Return r,
        [ChannelsFetch "100" "qna"; FetchActive "300";
         FetchArchived "300" (mkArchivedOptions (Some 100%nat) None);
         FetchArchived "300" (mkArchivedOptions (Some 100%nat) (Some "501"));
         FetchArchived "300" (mkArchivedOptions (Some 100%nat) (Some "502"))]) /\
     map threadId (lt_threads r) = ["401"; "402"; "403"; "501"; "404"; "502"]).
Proof.
  split; eexists; split; reflexivity.
Qed.

(** C1, amended.  When [list-threads] with [includeArchived] has resolved
    its guild and forum and fetched the active threads, it issues exactly
    one archived-thread request, without limit and without cursor, and no
    further one.  The threads it sorts and returns are the active threads
    with the threads of that one answer merged in by thread id: every id of
    either set occurs in the merged collection, and occurs once. *)
Theorem list_threads_merges_one_archived_batch
  (client : Client) (server : option string) (channelIdentifier : string)
  (limit : nat) (h h1 h2 : History) (guild : Guild) (forumChannel : Channel)
  (active archived : Collection.t Channel) :
  findGuild client server h = (Return guild, h1) ->
  resolveForum client guild channelIdentifier h1 = (Return forumChannel, h2) ->
  threads_fetchActive client h2 forumChannel = Fulfilled active ->
  threads_fetchArchived client (h2 ++ [FetchActive (ch_id forumChannel)])
    forumChannel (mkArchivedOptions None None) = Fulfilled archived ->
  let all :=
    Collection.concat (Collection.concat Collection.empty active) archived in
  exists r calls,
    listThreads client server channelIdentifier limit true h =
      (Return r,
       h2 ++ [FetchActive (ch_id forumChannel);
              FetchArchived (ch_id forumChannel) (mkArchivedOptions None None)]) /\
    h2 ++ [FetchActive (ch_id forumChannel);
           FetchArchived (ch_id forumChannel) (mkArchivedOptions None None)] =
      h ++ calls /\
    countArchived calls = 1%nat /\
    lt_threads r =
      map (formatThread forumChannel) (sortAndLimit limit (Collection.values all)) /\
    (forall k,
       In k (Collection.keys all) <->
       In k (Collection.keys active) \/ In k (Collection.keys archived)) /\
    NoDup (Collection.keys all).
Proof.
  intros Hguild Hforum Hactive Harchived all.
  destruct (MonadFacts.issues_run _ _ _ _ _
              (ResolverFacts.findGuild_issues client server) Hguild)
    as [calls1 [-> Hlookups1]].
  destruct (MonadFacts.issues_run _ _ _ _ _
              (ResolverFacts.resolveForum_issues client guild channelIdentifier)
              Hforum)
    as [calls2 [-> Hlookups2]].
  eexists.
  exists (calls1 ++ calls2 ++
          [FetchActive (ch_id forumChannel);
           FetchArchived (ch_id forumChannel) (mkArchivedOptions None None)]).
  split; [|split; [|split; [|split; [|split]]]].
  - rewrite (RunFacts.listThreads_returns client server channelIdentifier limit
               true _ _ _
               (((h ++ calls1) ++ calls2) ++
                [FetchActive (ch_id forumChannel)] ++
                [FetchArchived (ch_id forumChannel) (mkArchivedOptions None None)])
               _ _ _ all Hguild Hforum Hactive).
    + reflexivity.
    + unfold fetchArchivedOnce.
      rewrite (MonadFacts.bind_Return _ _ _ _ _
                 (MonadFacts.await_Fulfilled _
                    (fun h => threads_fetchArchived client h forumChannel
                                (mkArchivedOptions None None)) _ _ Harchived)).
      unfold ret. now rewrite <- !app_assoc.
  - now rewrite <- !app_assoc.
  - rewrite !PaginationFacts.countArchived_app.
    rewrite (PaginationFacts.countArchived_none calls1),
            (PaginationFacts.countArchived_none calls2); [reflexivity| |];
      (eapply Forall_impl; [exact ResolverFacts.lookup_not_archived|assumption]).
  - reflexivity.
  - intros k. subst all. rewrite !CollectionFacts.keys_concat_in. simpl. tauto.
  - subst all. do 2 apply CollectionFacts.keys_concat_nodup. constructor.
Qed.

(** The listing of the sample community with its archived threads. *)
Lemma list_threads_merges_one_archived_batch_witness :
  let active :=
    Collection.ofList ch_id
      [Scenario.library; Scenario.library2; Scenario.libraryNotes;
       Scenario.oldest] in
  let archived := Collection.ofList ch_id [Scenario.buried1] in
  let all :=
    Collection.concat (Collection.concat Collection.empty active) archived in
  exists r calls,
    listThreads Scenario.community None "qna" 50 true [] =
      (Return r,
       [ChannelsFetch "100" "qna"] ++
       [FetchActive "300"; FetchArchived "300" (mkArchivedOptions None None)]) /\
    [ChannelsFetch "100" "qna"] ++
    [FetchActive "300"; FetchArchived "300" (mkArchivedOptions None None)] =
      [] ++ calls /\
    countArchived calls = 1%nat /\
    lt_threads r =
      map (formatThread Scenario.qna) (sortAndLimit 50 (Collection.values all)) /\
    (forall k,
       In k (Collection.keys all) <->
       In k (Collection.keys active) \/ In k (Collection.keys archived)) /\
    NoDup (Collection.keys all).
Proof.
  intros active archived all.
  apply (list_threads_merges_one_archived_batch Scenario.community None "qna"
           50 [] [] [ChannelsFetch "100" "qna"] Scenario.alpha Scenario.qna
           active archived);
    reflexivity.
Defined.

(* ================================================================= *)
(** ** findGuild *)

Module GuildFacts.

Lemma values_filter_In {V} (p : V -> bool) (c : Collection.t V) (v : V) :
  In v (Collection.values (Collection.filter p c)) <->
  In v (Collection.values c) /\ p v = true.
Proof.
  unfold Collection.values, Collection.filter.
  rewrite !in_map_iff. split.
  - intros [[k v'] [<- Hin]]. apply filter_In in Hin. simpl in *.
    destruct Hin as [Hin Hp]. split; [|assumption].
    exists (k, v'). now split.
  - intros [[[k v'] [<- Hin]] Hp]. exists (k, v'). split; [reflexivity|].
    apply filter_In. now split.
Qed.

(** A collection that holds two different values has at least two entries. *)
Lemma two_values {V} (c : Collection.t V) (v1 v2 : V) :
  In v1 (Collection.values c) -> In v2 (Collection.values c) -> v1 <> v2 ->
  exists e1 e2 rest, c = e1 :: e2 :: rest.
Proof.
  destruct c as [|e1 [|e2 rest]]; simpl.
  - intros [].
  - intros [<-|[]] [<-|[]] Hne. now elim Hne.
  - intros _ _ _. eauto.
Qed.

(** [findGuild] with an identifier present: the guild fetched by id, or,
    when the fetch is rejected, the outcome of the name match. *)
Lemma findGuild_present (client : Client) (guildIdentifier : string) (h : History) :
  Js.truthy guildIdentifier = true ->
  (forall guild,
     guilds_fetch client h guildIdentifier = Fulfilled (Some guild) ->
     findGuild client (Some guildIdentifier) h =
       (Return guild, h ++ [GuildsFetch guildIdentifier])) /\
  (forall failure,
     guilds_fetch client h guildIdentifier = Rejected failure ->
     findGuild client (Some guildIdentifier) h =
       (match Collection.filter
                (fun g => Js.toLowerCase (guild_name g) =?
                          Js.toLowerCase guildIdentifier)
                (guilds_cache client (h ++ [GuildsFetch guildIdentifier])) with
        | [] =>
            Throw (Error ("Server " ++ Js.quoted guildIdentifier ++
                          " not found. Available servers: " ++
                          availableServers
                            (guilds_cache client
                               (h ++ [GuildsFetch guildIdentifier])%list))%string)
        | [(_, guild)] => Return guild
        | (_ :: _ :: _) as guilds =>
            Throw (Error (multipleServersMessage guildIdentifier guilds))
        end,
        h ++ [GuildsFetch guildIdentifier])).
Proof.
  intros Hpresent. split.
  - intros guild Hfetch. unfold findGuild. rewrite Hpresent.
    unfold bind, request. now rewrite Hfetch.
  - intros failure Hfetch. unfold findGuild. rewrite Hpresent.
    unfold bind, request. rewrite Hfetch. unfold peek.
    destruct (Collection.filter _ _) as [|[k1 g1] [|[k2 g2] rest]]; reflexivity.
Qed.

End GuildFacts.

(** C5, as stated, fails: against the client whose guild fetch fails with a
    network failure, which is not the platform saying that the id is
    unknown, [findGuild] still falls back to the name and returns the
    cached guild "Alpha" for the identifier "alpha". *)
Lemma find_guild_falls_back_on_any_failure :
  guilds_fetch Scenario.offline [] "alpha" = Rejected NetworkFailure /\
  findGuild Scenario.offline (Some "alpha") [] =
    (Return Scenario.alpha, [GuildsFetch "alpha"]).
Proof.
  split; reflexivity.
Qed.

(** C5, amended.  With an identifier present, [findGuild] first fetches by
    id.  A fetch that yields a guild is the answer, and the cached names
    are not consulted.  A fetch that fails, for whatever reason, is followed
    by the case-insensitive name match over the cached guilds: no match and
    several matches are errors, a single match is the answer. *)
Theorem find_guild_id_first_then_name
  (client : Client) (guildIdentifier : string) (h : History) :
  Js.truthy guildIdentifier = true ->
  (forall guild,
     guilds_fetch client h guildIdentifier = Fulfilled (Some guild) ->
     findGuild client (Some guildIdentifier) h =
       (Return guild, h ++ [GuildsFetch guildIdentifier])) /\
  (forall failure,
     guilds_fetch client h guildIdentifier = Rejected failure ->
     let cache := guilds_cache client (h ++ [GuildsFetch guildIdentifier]) in
     let guilds :=
       Collection.filter
         (fun g => Js.toLowerCase (guild_name g) =? Js.toLowerCase guildIdentifier)
         cache in
     findGuild client (Some guildIdentifier) h =
       (match guilds with
        | [] =>
            Throw (Error ("Server " ++ Js.quoted guildIdentifier ++
                          " not found. Available servers: " ++
                          availableServers cache)%string)
        | [(_, guild)] => Return guild
        | _ => Throw (Error (multipleServersMessage guildIdentifier guilds))
        end,
        h ++ [GuildsFetch guildIdentifier])).
Proof.
  intros Hpresent.
  destruct (GuildFacts.findGuild_present client guildIdentifier h Hpresent)
    as [Hbyid Hbyname].
  split; [exact Hbyid|].
  intros failure Hfetch cache guilds. rewrite (Hbyname failure Hfetch).
  fold cache. fold guilds.
  destruct guilds as [|[k1 g1] [|[k2 g2] rest]]; reflexivity.
Qed.

(** The lookup of "alpha" while the guild fetch fails with a network
    failure. *)
Lemma find_guild_id_first_then_name_witness :
  findGuild Scenario.offline (Some "alpha") [] =
    (Return Scenario.alpha, [] ++ [GuildsFetch "alpha"]).
Proof.
  exact (proj2 (find_guild_id_first_then_name Scenario.offline "alpha" []
                  eq_refl) NetworkFailure eq_refl).
Defined.

(** C6.  Let [N] be a non-empty identifier that the guild fetch rejects,
    and let the cache hold two guilds of name [N] with different ids.
    Then [findGuild] throws the error that says several servers have this
    name and lists every cached guild of that name, the two among them,
    each as its name followed by its id.  For either of the two guilds,
    when the guild fetch of its id yields it, [findGuild] on that id returns
    the guild. *)
Theorem find_guild_duplicate_name
  (client : Client) (N : string) (h : History) (failure : ApiFailure)
  (g1 g2 : Guild) :
  Js.truthy N = true ->
  guilds_fetch client h N = Rejected failure ->
  In g1 (Collection.values (guilds_cache client (h ++ [GuildsFetch N]))) ->
  In g2 (Collection.values (guilds_cache client (h ++ [GuildsFetch N]))) ->
  guild_id g1 <> guild_id g2 ->
  guild_name g1 = N ->
  guild_name g2 = N ->
  let guilds :=
    Collection.filter
      (fun g => Js.toLowerCase (guild_name g) =? Js.toLowerCase N)
      (guilds_cache client (h ++ [GuildsFetch N])) in
  findGuild client (Some N) h =
    (Throw (Error
              ("Multiple servers found with name " ++ Js.quoted N ++ ": " ++
               Js.join ", "
                 (map (fun g => (guild_name g ++ " (ID: " ++ guild_id g ++ ")")%string)
                      (Collection.values guilds)) ++
               ". Please specify the server ID.")%string),
     h ++ [GuildsFetch N]) /\
  In g1 (Collection.values guilds) /\
  In g2 (Collection.values guilds) /\
  (forall g h',
     g = g1 \/ g = g2 ->
     Js.truthy (guild_id g) = true ->
     guilds_fetch client h' (guild_id g) = Fulfilled (Some g) ->
     findGuild client (Some (guild_id g)) h' =
       (Return g, h' ++ [GuildsFetch (guild_id g)])).
Proof.
  intros Hpresent Hfetch Hin1 Hin2 Hdistinct Hname1 Hname2 guilds.
  assert (Hm1 : In g1 (Collection.values guilds)).
  { apply GuildFacts.values_filter_In. split; [assumption|].
    rewrite Hname1. apply String.eqb_refl. }
  assert (Hm2 : In g2 (Collection.values guilds)).
  { apply GuildFacts.values_filter_In. split; [assumption|].
    rewrite Hname2. apply String.eqb_refl. }
  split; [|split; [assumption|split; [assumption|]]].
  - rewrite (proj2 (GuildFacts.findGuild_present client N h Hpresent)
               failure Hfetch).
    fold guilds.
    destruct (GuildFacts.two_values guilds g1 g2 Hm1 Hm2) as [e1 [e2 [rest Heq]]].
    { intros ->. now apply Hdistinct. }
    rewrite Heq. destruct e1 as [k1 v1]. f_equal. f_equal.
    unfold multipleServersMessage, Collection.map, Collection.values.
    now rewrite map_map.
  - intros g h' _ Hid Hbyid.
    exact (proj1 (GuildFacts.findGuild_present client (guild_id g) h' Hid)
             g Hbyid).
Qed.

(** The two guilds named "Twin", by name and by id. *)
Lemma find_guild_duplicate_name_witness :
  findGuild Scenario.twins (Some "Twin") [] =
    (Throw (Error
              ("Multiple servers found with name " ++ Js.quoted "Twin" ++ ": " ++
               Js.join ", " ["Twin (ID: 201)"; "Twin (ID: 202)"] ++
               ". Please specify the server ID.")%string),
     [GuildsFetch "Twin"]) /\
  findGuild Scenario.twins (Some "201") [] =
    (Return Scenario.twin1, [GuildsFetch "201"]) /\
  findGuild Scenario.twins (Some "202") [] =
    (Return Scenario.twin2, [GuildsFetch "202"]).
Proof.
  destruct (find_guild_duplicate_name Scenario.twins "Twin" [] UnknownEntity
              Scenario.twin1 Scenario.twin2 eq_refl eq_refl
              ltac:(simpl; tauto) ltac:(simpl; tauto) ltac:(discriminate)
              eq_refl eq_refl)
    as [Hname [_ [_ Hid]]].
  split; [exact Hname|split].
  - exact (Hid Scenario.twin1 [] (or_introl eq_refl) eq_refl eq_refl).
  - exact (Hid Scenario.twin2 [] (or_intror eq_refl) eq_refl eq_refl).
Defined.

(* ================================================================= *)
(** ** read-forum-threads *)

Module ReadFacts.

Lemma lookup_readsBounded (c : Call) : isLookup c = true -> readsBounded c.
Proof. destruct c; simpl; intros H; try exact I; discriminate. Qed.

Section WithClient.
Variable client : Client.
Variable guild : Guild.
Variable forumChannel : Channel.
Variable before : option Js.StrOrNum.

(** The loop over the threads: one request for ten messages per thread. *)
Lemma forEach_readThread :
  answersMessages client ->
  forall threads h,
  exists entries calls,
    forEach (readThread client guild forumChannel before) threads h =
      (Return entries, h ++ calls) /\
    map fe_threadId entries = map ch_id threads /\
    (withinMessageLimit client ->
     Forall (fun e => (length (fe_messages e) <= 10)%nat) entries) /\
    Forall (fun c => isMessagesFetch c = true /\ readsBounded c) calls /\
    length calls = length threads.
Proof.
  intros Hanswers. induction threads as [|thread threads IH]; intros h.
  - exists [], []. simpl. unfold ret. rewrite app_nil_r.
    repeat split; constructor.
  - set (opts :=
           mkFetchOptions messagesPerThread
             (match before with
              | Some b => if Js.truthyValue b then Some (Js.toString b) else None
              | None => None
              end)).
    destruct (Hanswers h thread opts) as [messages Hfetch].
    destruct (IH (h ++ [MessagesFetch (ch_id thread) opts]))
      as [entries [calls [Hrun [Hids [Hmsgs [Hcalls Hlen]]]]]].
    eexists. exists (MessagesFetch (ch_id thread) opts :: calls).
    split; [|split; [|split; [|split]]].
    + cbn [forEach]. unfold readThread at 1. fold opts.
      rewrite (MonadFacts.bind_Return _ _ _ _ _
                 (MonadFacts.bind_Return _ _ _ _ _
                    (MonadFacts.await_Fulfilled _
                       (fun h => messages_fetch client h thread opts) _ _ Hfetch))).
      unfold ret at 1.
      rewrite (MonadFacts.bind_Return _ _ _ _ _ Hrun).
      unfold ret. rewrite <- app_assoc. reflexivity.
    + simpl. now rewrite Hids.
    + intros Hlimit. constructor; [|now apply Hmsgs]. simpl.
      rewrite length_map. unfold Collection.values. rewrite length_map.
      exact (Hlimit h thread opts messages Hfetch).
    + constructor; [|assumption]. split; reflexivity.
    + simpl. now rewrite Hlen.
Qed.

End WithClient.
End ReadFacts.

(** C10.  When [read-forum-threads] has resolved its guild and forum and
    fetched the active threads, and the client answers every message
    request, the handler returns one entry for each of the first [limit]
    active threads, in their order, hence at most [limit] entries.
    Whatever the server, channel, limit and before parameters are, it asks
    for the active threads only, never for archived ones, and issues one
    message request per returned thread, each with the limit 10; when the
    client returns no more messages than a request allows, every entry holds
    at most 10 messages. *)
Theorem read_forum_threads_active_only_ten_messages
  (client : Client) (server : option string) (channelIdentifier : string)
  (limit : nat) (before : option Js.StrOrNum) (h h1 h2 : History)
  (guild : Guild) (forumChannel : Channel) (threads : Collection.t Channel) :
  findGuild client server h = (Return guild, h1) ->
  resolveForum client guild channelIdentifier h1 = (Return forumChannel, h2) ->
  threads_fetchActive client h2 forumChannel = Fulfilled threads ->
  answersMessages client ->
  exists entries calls,
    readForumThreads client server channelIdentifier limit before h =
      (Return entries, h ++ calls) /\
    map fe_threadId entries =
      map ch_id (firstn limit (Collection.values threads)) /\
    (length entries <= limit)%nat /\
    (withinMessageLimit client ->
     Forall (fun e => (length (fe_messages e) <= 10)%nat) entries) /\
    Forall readsBounded calls /\
    length (filter isMessagesFetch calls) = length entries /\
    messagesPerThread = 10%nat.
Proof.
  intros Hguild Hforum Hactive Hlimit.
  destruct (MonadFacts.issues_run _ _ _ _ _
              (ResolverFacts.findGuild_issues client server) Hguild)
    as [calls1 [-> Hlookups1]].
  destruct (MonadFacts.issues_run _ _ _ _ _
              (ResolverFacts.resolveForum_issues client guild channelIdentifier)
              Hforum)
    as [calls2 [-> Hlookups2]].
  destruct (ReadFacts.forEach_readThread client guild forumChannel before Hlimit
              (JsArray.slice0 limit (Collection.values threads))
              (((h ++ calls1) ++ calls2) ++ [FetchActive (ch_id forumChannel)]))
    as [entries [calls3 [Hrun [Hids [Hmsgs [Hcalls Hlen]]]]]].
  exists entries,
    (calls1 ++ calls2 ++ [FetchActive (ch_id forumChannel)] ++ calls3).
  assert (Hentries : length entries =
                     length (firstn limit (Collection.values threads))).
  { rewrite <- (length_map fe_threadId), Hids. apply length_map. }
  split; [|split; [|split; [|split; [|split; [|split]]]]].
  - unfold readForumThreads.
    rewrite (MonadFacts.bind_Return _ _ _ _ _ Hguild).
    rewrite (MonadFacts.bind_Return _ _ _ _ _ Hforum).
    rewrite (MonadFacts.bind_Return _ _ _ _ _
               (MonadFacts.await_Fulfilled _
                  (fun h => threads_fetchActive client h forumChannel)
                  _ _ Hactive)).
    rewrite Hrun. now rewrite <- !app_assoc.
  - exact Hids.
  - rewrite Hentries, length_firstn. lia.
  - exact Hmsgs.
  - repeat (apply Forall_app; split).
    + eapply Forall_impl; [exact ReadFacts.lookup_readsBounded|assumption].
    + eapply Forall_impl; [exact ReadFacts.lookup_readsBounded|assumption].
    + constructor; [exact I|constructor].
    + eapply Forall_impl; [|exact Hcalls]. now intros c [_ Hc].
  - rewrite !filter_app, !length_app.
    assert (Hnone : forall calls,
               Forall (fun c => isLookup c = true) calls ->
               length (filter isMessagesFetch calls) = 0%nat).
    { induction 1 as [|c calls Hc _ IH]; simpl; [reflexivity|].
      destruct c; simpl in *; try discriminate; exact IH. }
    rewrite (Hnone calls1 Hlookups1), (Hnone calls2 Hlookups2). simpl.
    assert (Hall : filter isMessagesFetch calls3 = calls3).
    { clear -Hcalls. induction Hcalls as [|c calls [Hc _] _ IH]; simpl.
      - reflexivity.
      - rewrite Hc. now rewrite IH. }
    rewrite Hall, Hlen, Hentries. reflexivity.
  - reflexivity.
Qed.

(** Two of the four active threads of the sample community, with the
    numeric cursor 12. *)
Lemma read_forum_threads_active_only_ten_messages_witness :
  exists entries calls,
    readForumThreads Scenario.community None "qna" 2 (Some (Js.Num 12)) [] =
      (Return entries, [] ++ calls) /\
    map fe_threadId entries =
      map ch_id
        (firstn 2
           (Collection.values
              (Collection.ofList ch_id
                 [Scenario.library; Scenario.library2; Scenario.libraryNotes;
                  Scenario.oldest]))) /\
    (length entries <= 2)%nat /\
    Forall (fun e => (length (fe_messages e) <= 10)%nat) entries /\
    Forall readsBounded calls /\
    length (filter isMessagesFetch calls) = length entries /\
    messagesPerThread = 10%nat.
Proof.
  destruct (read_forum_threads_active_only_ten_messages Scenario.community None
              "qna" 2 (Some (Js.Num 12)) [] [] [ChannelsFetch "100" "qna"]
              Scenario.alpha Scenario.qna
              (Collection.ofList ch_id
                 [Scenario.library; Scenario.library2; Scenario.libraryNotes;
                  Scenario.oldest])
              eq_refl eq_refl eq_refl)
    as [entries [calls [Hrun [Hids [Hlen [Hmsgs Hrest]]]]]].
  - intros h thread opts. eexists. reflexivity.
  - exists entries, calls. repeat split; try assumption; try apply Hrest.
    apply Hmsgs. intros h thread opts messages Hfetch.
    apply PaginationFacts.Fulfilled_eq in Hfetch. subst messages.
    destruct (fo_limit opts) as [|[|[|n]]]; simpl; lia.
Defined.


(* ================================================================= *)
(** ** Further facts: strings, collections, resolvers *)

Module MoreFacts.


Lemma lowerChar_idem (c : ascii) : Js.lowerChar (Js.lowerChar c) = Js.lowerChar c.
Proof.
  destruct c as [[] [] [] [] [] [] [] []]; vm_compute; reflexivity.
Qed.

Lemma toLowerCase_idem (s : string) :
  Js.toLowerCase (Js.toLowerCase s) = Js.toLowerCase s.
Proof.
  induction s as [|c s IH]; simpl; [reflexivity|].
  now rewrite lowerChar_idem, IH.
Qed.



Lemma replaceHash_hashFree (s : string) :
  hashFree s = true -> Js.replaceHash s = s.
Proof.
  induction s as [|c s IH]; simpl; [reflexivity|].
  destruct (Ascii.eqb c (ascii_of_nat 35)); simpl; [discriminate|].
  intros H. now rewrite IH.
Qed.


Lemma includes_empty_query (s : string) : Js.includes s EmptyString = true.
Proof. destruct s; reflexivity. Qed.

Lemma values_filter {V} (p : V -> bool) (c : Collection.t V) :
  Collection.values (Collection.filter p c) = filter p (Collection.values c).
Proof.
  unfold Collection.values, Collection.filter.
  induction c as [|[k v] c IH]; simpl; [reflexivity|].
  destruct (p v); simpl; now rewrite IH.
Qed.

Lemma map_values {V B} (f : V -> B) (c : Collection.t V) :
  Collection.map f c = map f (Collection.values c).
Proof.
  unfold Collection.map, Collection.values. now rewrite map_map.
Qed.

Section WithClient.
Variable client : Client.

(** [findGuild] without a usable identifier. *)
Lemma findGuild_absent (guildIdentifier : option string) (h : History) :
  Js.truthyOpt guildIdentifier = false ->
  findGuild client guildIdentifier h =
    (match guilds_cache client h with
     | [(_, guild)] => Return guild
     | cache =>
         Throw (Error ("Bot is in multiple servers. Please specify server name or ID. Available servers: " ++
                       availableServers cache)%string)
     end, h).
Proof.
  intros Habsent. unfold findGuild.
  destruct guildIdentifier as [ident|]; simpl in Habsent.
  - rewrite Habsent. unfold bind, peek.
    destruct (guilds_cache client h) as [|[k g] [|e rest]]; reflexivity.
  - unfold bind, peek.
    destruct (guilds_cache client h) as [|[k g] [|e rest]]; reflexivity.
Qed.

(** The two ways of [resolveForum]: the forum fetched by id, or else the
    outcome of the name search. *)
Lemma resolveForum_cases (guild : Guild) (channelIdentifier : string)
  (h : History) :
  (forall ch,
     channels_fetch client h guild channelIdentifier = Fulfilled (Some ch) ->
     isForum ch = true ->
     resolveForum client guild channelIdentifier h =
       (Return ch, h ++ [ChannelsFetch (guild_id guild) channelIdentifier])) /\
  (match channels_fetch client h guild channelIdentifier with
   | Fulfilled (Some ch) => isForum ch = false
   | _ => True
   end ->
   resolveForum client guild channelIdentifier h =
     (match Collection.filter (forumNameMatches channelIdentifier)
              (channels_cache client
                 (h ++ [ChannelsFetch (guild_id guild) channelIdentifier])
                 guild) with
      | [] =>
          Throw (Error
                   ("Forum channel " ++ Js.quoted channelIdentifier ++
                    " not found in server " ++ Js.quoted (guild_name guild) ++
                    ". Available forums: " ++
                    Js.join ", "
                      (Collection.map
                         (fun c => Js.quoted ("#" ++ ch_name c)%string)
                         (Collection.filter isForum
                            (channels_cache client
                               (h ++ [ChannelsFetch (guild_id guild)
                                        channelIdentifier])%list
                               guild))))%string)
      | [(_, forum)] => Return forum
      | (_ :: _ :: _) as channels =>
          Throw (Error
                   ("Multiple forum channels found with name " ++
                    Js.quoted channelIdentifier ++ " in server " ++
                    Js.quoted (guild_name guild) ++ ": " ++
                    Js.join ", "
                      (Collection.map
                         (fun c => ("#" ++ ch_name c ++ " (" ++ ch_id c ++ ")")%string)
                         channels) ++
                    ". Please specify the channel ID.")%string)
      end,
      h ++ [ChannelsFetch (guild_id guild) channelIdentifier])).
Proof.
  split.
  - intros ch Hfetch Hforum. unfold resolveForum, bind, request.
    now rewrite Hfetch, Hforum.
  - intros Hnot. unfold resolveForum, bind, request, peek.
    destruct (channels_fetch client h guild channelIdentifier) as [[ch|]|f];
      [rewrite Hnot| |];
      destruct (Collection.filter _ _) as [|[k1 c1] [|[k2 c2] rest]];
      reflexivity.
Qed.

End WithClient.

Lemma In_singleton_filter {V} (p : V -> bool) (c : Collection.t V) k v :
  Collection.filter p c = [(k, v)] ->
  In v (Collection.values c) /\ p v = true.
Proof.
  intros Heq.
  assert (Hin : In (k, v) (Collection.filter p c)) by (rewrite Heq; now left).
  apply filter_In in Hin. destruct Hin as [Hin Hp]. split; [|exact Hp].
  unfold Collection.values. apply in_map_iff. now exists (k, v).
Qed.

End MoreFacts.

(* ================================================================= *)
(** ** findGuild without identifier; the forum lookup *)

(** X1.  Without a server identifier, or with the empty string for one,
    [findGuild] issues no request.  It returns the cached guild when the
    cache holds exactly one, and otherwise, also when the cache is empty,
    throws the error that asks for a server and lists the names of all
    cached guilds. *)
Theorem find_guild_without_identifier
  (client : Client) (guildIdentifier : option string) (h : History) :
  Js.truthyOpt guildIdentifier = false ->
  (forall k guild,
     guilds_cache client h = [(k, guild)] ->
     findGuild client guildIdentifier h = (Return guild, h)) /\
  (Collection.size (guilds_cache client h) <> 1%nat ->
   findGuild client guildIdentifier h =
     (Throw (Error
               ("Bot is in multiple servers. Please specify server name or ID. Available servers: " ++
                Js.join ", "
                  (map (fun g => Js.quoted (guild_name g))
                       (Collection.values (guilds_cache client h))))%string),
      h)).
Proof.
  intros Habsent. rewrite (MoreFacts.findGuild_absent client _ h Habsent).
  split.
  - intros k guild ->. reflexivity.
  - intros Hsize.
    destruct (guilds_cache client h) as [|[k g] [|e rest]];
      [|now elim Hsize|];
      unfold availableServers; now rewrite MoreFacts.map_values.
Qed.

(** The empty identifier against three cached guilds. *)
Lemma find_guild_without_identifier_witness :
  findGuild Scenario.twins (Some EmptyString) [] =
    (Throw (Error
              ("Bot is in multiple servers. Please specify server name or ID. Available servers: " ++
               Js.join ", "
                 [Js.quoted "Alpha"; Js.quoted "Twin"; Js.quoted "Twin"])%string),
     []).
Proof.
  apply (proj2 (find_guild_without_identifier Scenario.twins
                  (Some EmptyString) [] eq_refl)).
  discriminate.
Defined.

(** X2.  Whatever [resolveForum] returns is a forum channel: either the
    channel that the fetch by id yielded, or a channel of the guild's cache
    whose name matches the identifier.  Returning or throwing, it has
    issued exactly one request, the channel fetch by id. *)
Theorem resolve_forum_yields_forum
  (client : Client) (guild : Guild) (channelIdentifier : string)
  (h h' : History) (forumChannel : Channel) :
  resolveForum client guild channelIdentifier h = (Return forumChannel, h') ->
  isForum forumChannel = true /\
  h' = h ++ [ChannelsFetch (guild_id guild) channelIdentifier] /\
  (channels_fetch client h guild channelIdentifier =
     Fulfilled (Some forumChannel) \/
   (In forumChannel (Collection.values (channels_cache client h' guild)) /\
    forumNameMatches channelIdentifier forumChannel = true)).
Proof.
  intros Hrun.
  destruct (MoreFacts.resolveForum_cases client guild channelIdentifier h)
    as [Hbyid Hbyname].
  assert (Hsearch :
            match channels_fetch client h guild channelIdentifier with
            | Fulfilled (Some ch) => isForum ch = false
            | _ => True
            end ->
            isForum forumChannel = true /\
            h' = h ++ [ChannelsFetch (guild_id guild) channelIdentifier] /\
            In forumChannel (Collection.values (channels_cache client h' guild)) /\
            forumNameMatches channelIdentifier forumChannel = true).
  { intros Hnot. rewrite (Hbyname Hnot) in Hrun.
    destruct (Collection.filter _ _) as [|[k1 c1] [|e rest]] eqn:Hfilter;
      try discriminate.
    injection Hrun as <- <-.
    destruct (MoreFacts.In_singleton_filter _ _ _ _ Hfilter) as [Hin Hmatch].
    repeat split; try assumption.
    unfold forumNameMatches in Hmatch.
    now apply andb_true_iff in Hmatch. }
  destruct (channels_fetch client h guild channelIdentifier) as [[ch|]|f] eqn:Hfetch.
  - destruct (isForum ch) eqn:Hforum.
    + rewrite (Hbyid ch eq_refl Hforum) in Hrun. injection Hrun as <- <-.
      repeat split; [assumption|now left].
    + destruct (Hsearch eq_refl) as [H1 [H2 H3]]. repeat split; try assumption.
      now right.
  - destruct (Hsearch I) as [H1 [H2 H3]]. repeat split; try assumption. now right.
  - destruct (Hsearch I) as [H1 [H2 H3]]. repeat split; try assumption. now right.
Qed.

(** The forum "qna" found by its name in capitals. *)
Lemma resolve_forum_yields_forum_witness :
  isForum Scenario.qna = true /\
  [ChannelsFetch "100" "QNA"] = [] ++ [ChannelsFetch "100" "QNA"] /\
  (channels_fetch Scenario.community [] Scenario.alpha "QNA" =
     Fulfilled (Some Scenario.qna) \/
   (In Scenario.qna
      (Collection.values
         (channels_cache Scenario.community [ChannelsFetch "100" "QNA"]
            Scenario.alpha)) /\
    forumNameMatches "QNA" Scenario.qna = true)).
Proof.
  apply (resolve_forum_yields_forum Scenario.community Scenario.alpha "QNA"
           [] [ChannelsFetch "100" "QNA"] Scenario.qna).
  reflexivity.
Defined.

(** X3.  When the fetch by id does not yield a forum channel, because it
    is rejected, yields nothing, or yields a channel of another type,
    [resolveForum] searches the guild's cache by name.  Without a match it
    throws the error that lists the forum channels of the cache and no
    other channel; with one match it returns that channel; with several it
    throws the error that lists each match with its id, and every match is
    a forum channel. *)
Theorem resolve_forum_by_name
  (client : Client) (guild : Guild) (channelIdentifier : string) (h : History) :
  match channels_fetch client h guild channelIdentifier with
  | Fulfilled (Some ch) => isForum ch = false
  | _ => True
  end ->
  let h' := h ++ [ChannelsFetch (guild_id guild) channelIdentifier] in
  let cache := channels_cache client h' guild in
  let channels := Collection.filter (forumNameMatches channelIdentifier) cache in
  (channels = [] ->
   resolveForum client guild channelIdentifier h =
     (Throw (Error
               ("Forum channel " ++ Js.quoted channelIdentifier ++
                " not found in server " ++ Js.quoted (guild_name guild) ++
                ". Available forums: " ++
                Js.join ", "
                  (map (fun c => Js.quoted ("#" ++ ch_name c))
                       (filter isForum (Collection.values cache))))%string),
      h')) /\
  (forall k forumChannel,
     channels = [(k, forumChannel)] ->
     resolveForum client guild channelIdentifier h = (Return forumChannel, h')) /\
  ((2 <= Collection.size channels)%nat ->
   resolveForum client guild channelIdentifier h =
     (Throw (Error
               ("Multiple forum channels found with name " ++
                Js.quoted channelIdentifier ++ " in server " ++
                Js.quoted (guild_name guild) ++ ": " ++
                Js.join ", "
                  (map (fun c => ("#" ++ ch_name c ++ " (" ++ ch_id c ++ ")")%string)
                       (Collection.values channels)) ++
                ". Please specify the channel ID.")%string),
      h') /\
   Forall (fun c => isForum c = true) (Collection.values channels)).
Proof.
  intros Hnot h' cache channels.
  pose proof (proj2 (MoreFacts.resolveForum_cases client guild
                       channelIdentifier h) Hnot) as Hrun.
  fold h' in Hrun. fold cache in Hrun. fold channels in Hrun.
  split; [|split].
  - intros Hnone. rewrite Hrun, Hnone.
    now rewrite MoreFacts.map_values, MoreFacts.values_filter.
  - intros k forumChannel Hone. now rewrite Hrun, Hone.
  - intros Hmany. split.
    + rewrite Hrun.
      destruct channels as [|[k1 c1] [|e2 rest]]; simpl in Hmany; try lia.
      now rewrite MoreFacts.map_values.
    + apply Forall_forall. intros c Hin.
      apply GuildFacts.values_filter_In in Hin. destruct Hin as [_ Hmatch].
      unfold forumNameMatches in Hmatch. now apply andb_true_iff in Hmatch.
Qed.

(** An unknown forum name in the sample community. *)
Lemma resolve_forum_by_name_witness :
  resolveForum Scenario.community Scenario.alpha "help" [] =
    (Throw (Error
              ("Forum channel " ++ Js.quoted "help" ++
               " not found in server " ++ Js.quoted "Alpha" ++
               ". Available forums: " ++
               Js.join ", " [Js.quoted "#qna"])%string),
     [ChannelsFetch "100" "help"]).
Proof.
  exact (proj1 (resolve_forum_by_name Scenario.community Scenario.alpha
                  "help" [] I) eq_refl).
Defined.



(* ================================================================= *)
(** ** Further facts: what a computation emits *)

Module EmitFacts.

Lemma emits_ret {A} (Q : History -> Prop) (a : A) : Q [] -> emits Q (ret a).
Proof. intros HQ h. exists []. simpl. now rewrite app_nil_r. Qed.

Lemma emits_throw {A} (Q : History -> Prop) (e : Exn) :
  Q [] -> emits Q (@throw A e).
Proof. intros HQ h. exists []. simpl. now rewrite app_nil_r. Qed.

Lemma emits_peek {A} (Q : History -> Prop) (read : History -> A) :
  Q [] -> emits Q (peek read).
Proof. intros HQ h. exists []. simpl. now rewrite app_nil_r. Qed.

Lemma emits_bind {A B} (Q1 Q2 Q : History -> Prop) (m : M A) (k : A -> M B) :
  emits Q1 m ->
  (forall a, emits Q2 (k a)) ->
  (forall calls, Q1 calls -> Q calls) ->
  (forall calls1 calls2, Q1 calls1 -> Q2 calls2 -> Q (calls1 ++ calls2)) ->
  emits Q (bind m k).
Proof.
  intros Hm Hk Hstop Hgo h. unfold bind.
  destruct (Hm h) as [calls1 [Heq1 HQ1]].
  destruct (m h) as [[a|e] h1]; simpl in Heq1; subst h1.
  - destruct (Hk a (h ++ calls1)) as [calls2 [Heq2 HQ2]].
    exists (calls1 ++ calls2). rewrite Heq2, app_assoc. split; [reflexivity|].
    now apply Hgo.
  - exists calls1. split; [reflexivity|now apply Hstop].
Qed.

Lemma emits_await {A} (Q : History -> Prop) (c : Call)
  (answer : History -> Settled A) :
  Q [c] -> emits Q (await c answer).
Proof.
  intros HQ h. exists [c]. split; [|assumption].
  unfold await, bind, request. now destruct (answer h).
Qed.

Lemma emits_weaken {A} (Q Q' : History -> Prop) (m : M A) :
  (forall calls, Q calls -> Q' calls) -> emits Q m -> emits Q' m.
Proof.
  intros Himpl Hm h. destruct (Hm h) as [calls [Heq HQ]].
  exists calls. split; [assumption|now apply Himpl].
Qed.

Lemma issues_emits {A} (P : Call -> Prop) (m : M A) :
  issues P m -> emits (Forall P) m.
Proof. exact (fun H => H). Qed.

Lemma emits_issues {A} (P : Call -> Prop) (m : M A) :
  emits (Forall P) m -> issues P m.
Proof. exact (fun H => H). Qed.

(** The same, with the completion in view. *)
Lemma emits_run {A} (Q : History -> Prop) (m : M A) (h : History) :
  emits Q m -> exists r calls, m h = (r, h ++ calls) /\ Q calls.
Proof.
  intros Hm. destruct (Hm h) as [calls [Heq HQ]].
  exists (fst (m h)), calls. split; [|assumption].
  rewrite <- Heq. now destruct (m h).
Qed.

Lemma lookups_not_mutating (calls : History) :
  Forall (fun c => isLookup c = true) calls ->
  filter mutating calls = [].
Proof.
  induction 1 as [|c calls Hc _ IH]; simpl; [reflexivity|].
  now rewrite (ResolverFacts.lookup_not_mutating c Hc).
Qed.

End EmitFacts.

(* ================================================================= *)
(** ** Tags: projection and application *)

Module MoreTagFacts.

Lemma find_tag_by_id (tags : list Tag) (tagId : string) (tag : Tag) :
  JsArray.find (fun t => tag_id t =? tagId) tags = Some tag ->
  In tag tags /\ tag_id tag = tagId.
Proof.
  unfold JsArray.find. intros Hfind. apply find_some in Hfind.
  destruct Hfind as [Hin Heq]. split; [assumption|now apply String.eqb_eq].
Qed.

Lemma find_own_id (tags : list Tag) (tag : Tag) :
  NoDup (map tag_id tags) -> In tag tags ->
  JsArray.find (fun t => tag_id t =? tag_id tag) tags = Some tag.
Proof.
  unfold JsArray.find.
  induction tags as [|t tags IH]; simpl; intros Hnd Hin; [destruct Hin|].
  inversion Hnd as [|? ? Hfresh Hnd']; subst.
  destruct Hin as [->|Hin].
  - now rewrite String.eqb_refl.
  - destruct (String.eqb_spec (tag_id t) (tag_id tag)) as [Heq|_].
    + exfalso. apply Hfresh. rewrite Heq. now apply in_map.
    + now apply IH.
Qed.

Lemma existsb_eqb_In (x : string) (seen : list string) :
  existsb (String.eqb x) seen = true <-> In x seen.
Proof.
  rewrite existsb_exists. split.
  - intros [y [Hin Heq]]. apply String.eqb_eq in Heq. now subst.
  - intros Hin. exists x. split; [assumption|apply String.eqb_refl].
Qed.

Lemma uniq_In (l : list string) : forall seen x,
  In x (Js.uniq l seen) <-> In x l /\ ~ In x seen.
Proof.
  induction l as [|y l IH]; intros seen x; simpl; [tauto|].
  destruct (existsb (String.eqb y) seen) eqn:Hseen.
  - apply existsb_eqb_In in Hseen. rewrite IH. split.
    + intros [Hin Hnot]. tauto.
    + intros [[->|Hin] Hnot]; [contradiction|tauto].
  - assert (Hfresh : ~ In y seen).
    { intros Hin. apply existsb_eqb_In in Hin. congruence. }
    simpl. rewrite IH. simpl. split.
    + intros [->|[Hin Hnot]]; [tauto|tauto].
    + intros [[->|Hin] Hnot]; [now left|].
      destruct (string_dec y x) as [->|Hne]; [now left|right; tauto].
Qed.

Lemma uniq_NoDup (l : list string) : forall seen, NoDup (Js.uniq l seen).
Proof.
  induction l as [|y l IH]; intros seen; simpl; [constructor|].
  destruct (existsb (String.eqb y) seen); [apply IH|].
  constructor; [|apply IH].
  rewrite uniq_In. simpl. tauto.
Qed.

Lemma uniq_prefix (l1 l2 : list string) : forall seen,
  NoDup l1 -> (forall x, In x l1 -> ~ In x seen) ->
  exists added, Js.uniq (l1 ++ l2) seen = l1 ++ added.
Proof.
  induction l1 as [|y l1 IH]; intros seen Hnd Hfresh; simpl.
  - now exists (Js.uniq l2 seen).
  - inversion Hnd as [|? ? Hnotin Hnd']; subst.
    destruct (existsb (String.eqb y) seen) eqn:Hseen.
    + apply existsb_eqb_In in Hseen. exfalso. apply (Hfresh y); [now left|assumption].
    + destruct (IH (y :: seen) Hnd') as [added Heq].
      * intros x Hin [<-|Hx]; [contradiction|].
        apply (Hfresh x); [now right|assumption].
      * exists added. now rewrite Heq.
Qed.

(** The ids that the loop of [add-thread-tags] collects: for each name in
    turn, the id of the first configured tag of that name, if any. *)
Lemma resolveTagNames_ids (forumChannel : Channel) (tagNames : list string) :
  forall tagIds notFoundTags,
    fst (fold_left
           (fun acc tagName =>
              let '(tagIds, notFoundTags) := acc in
              match JsArray.find
                      (fun tag => Js.toLowerCase (tag_name tag) =?
                                  Js.toLowerCase tagName)
                      (ch_availableTags forumChannel) with
              | Some foundTag => (tagIds ++ [tag_id foundTag], notFoundTags)
              | None => (tagIds, notFoundTags ++ [tagName])
              end)
           tagNames (tagIds, notFoundTags)) =
    tagIds ++
    flat_map
      (fun tagName =>
         match JsArray.find
                 (fun tag => Js.toLowerCase (tag_name tag) =?
                             Js.toLowerCase tagName)
                 (ch_availableTags forumChannel) with
         | Some foundTag => [tag_id foundTag]
         | None => []
         end)
      tagNames.
Proof.
  induction tagNames as [|n tagNames IH]; intros tagIds notFoundTags; simpl.
  - now rewrite app_nil_r.
  - destruct (JsArray.find _ (ch_availableTags forumChannel)) as [tag|].
    + rewrite IH. now rewrite <- app_assoc.
    + now rewrite IH.
Qed.

Lemma find_by_name (tags : list Tag) (tagName : string) (tag : Tag) :
  JsArray.find
    (fun tag => Js.toLowerCase (tag_name tag) =? Js.toLowerCase tagName) tags
    = Some tag ->
  In tag tags /\ equalsIgnoreCase (tag_name tag) tagName.
Proof.
  unfold JsArray.find. intros Hfind. apply find_some in Hfind.
  destruct Hfind as [Hin Heq]. split; [assumption|now apply String.eqb_eq].
Qed.

(** An id is collected exactly when it is the id found for a requested
    name. *)
Lemma resolveTagNames_In (forumChannel : Channel) (tagNames : list string)
  (tagId : string) :
  In tagId (fst (resolveTagNames forumChannel tagNames)) <->
  exists tagName tag,
    In tagName tagNames /\
    JsArray.find
      (fun tag => Js.toLowerCase (tag_name tag) =? Js.toLowerCase tagName)
      (ch_availableTags forumChannel) = Some tag /\
    tag_id tag = tagId.
Proof.
  unfold resolveTagNames. rewrite resolveTagNames_ids. simpl.
  rewrite in_flat_map. split.
  - intros [tagName [Hin Hid]].
    destruct (JsArray.find _ _) as [tag|] eqn:Hfind; [|destruct Hid].
    destruct Hid as [<-|[]]. now exists tagName, tag.
  - intros [tagName [tag [Hin [Hfind <-]]]]. exists tagName.
    split; [assumption|]. rewrite Hfind. now left.
Qed.

Lemma all_matched (forumChannel : Channel) (tagNames : list string) :
  (forall tagName, In tagName tagNames ->
                   tagNameMatches forumChannel tagName = true) ->
  unmatchedNames forumChannel tagNames = [].
Proof.
  unfold unmatchedNames. induction tagNames as [|n tagNames IH]; simpl.
  - reflexivity.
  - intros Hall. rewrite (Hall n) by now left. simpl.
    apply IH. intros m Hm. apply Hall. now right.
Qed.

End MoreTagFacts.

(** X5.  The tags shown for a thread are its applied tag ids, one view per
    id and in the same order.  An id that the forum does not configure is
    shown under the name "Unknown Tag" without emoji, and does not fail the
    listing; an id of a configured tag is shown with that tag's name and
    emoji, the ids of the configured tags being distinct. *)
Theorem thread_tags_follow_applied_ids (forumChannel thread : Channel) :
  map tv_id (threadTags forumChannel thread) = ch_appliedTags thread /\
  (forall tagId,
     (forall tag, In tag (ch_availableTags forumChannel) -> tag_id tag <> tagId) ->
     tagView forumChannel tagId = mkTagView tagId "Unknown Tag" None) /\
  (forall tag,
     NoDup (map tag_id (ch_availableTags forumChannel)) ->
     In tag (ch_availableTags forumChannel) ->
     tagView forumChannel (tag_id tag) =
       mkTagView (tag_id tag) (tag_name tag) (tag_emoji tag)).
Proof.
  split; [|split].
  - unfold threadTags. rewrite map_map.
    rewrite <- (map_id (ch_appliedTags thread)) at 2.
    apply map_ext. intros tagId. unfold tagView.
    destruct (JsArray.find _ _) as [tag|] eqn:Hfind; [|reflexivity].
    simpl. now apply MoreTagFacts.find_tag_by_id in Hfind.
  - intros tagId Hnone. unfold tagView.
    destruct (JsArray.find _ _) as [tag|] eqn:Hfind; [|reflexivity].
    apply MoreTagFacts.find_tag_by_id in Hfind. destruct Hfind as [Hin Heq].
    now elim (Hnone tag Hin).
  - intros tag Hnd Hin. unfold tagView.
    rewrite (MoreTagFacts.find_own_id _ _ Hnd Hin).
    now destruct (tag_emoji tag) as [[eid ename]|].
Qed.

(** The thread "library-notes" carries the id "t9", which the forum "qna"
    does not configure; "Library" carries the id of the tag "Answered". *)
Lemma thread_tags_follow_applied_ids_witness :
  tagView Scenario.qna "t9" = mkTagView "t9" "Unknown Tag" None /\
  tagView Scenario.qna (tag_id Scenario.answered) =
    mkTagView "t1" "Answered" None.
Proof.
  destruct (thread_tags_follow_applied_ids Scenario.qna Scenario.libraryNotes)
    as [_ [Hunknown Hknown]].
  split.
  - apply Hunknown. intros tag [<-|[<-|[]]]; discriminate.
  - apply (Hknown Scenario.answered).
    + repeat constructor; simpl; intuition discriminate.
    + now left.
Defined.

(** X6.  When every requested name matches a configured tag and the
    update succeeds, [add-thread-tags] ends with exactly one update of the
    thread's tags, issued after the lookups.  The ids it sets are pairwise
    distinct; every tag applied before is among them, and so is, for each
    requested name, the id of a configured tag of that name; nothing else
    is.  If the applied tags were distinct, they come first and in their
    order, the new ones behind them. *)
Theorem add_thread_tags_keeps_and_adds
  (client : Client) (server : option string) (channelIdentifier threadId : string)
  (tagNames : list string) (h h1 h2 : History) (guild : Guild)
  (forumChannel thread : Channel) :
  findGuild client server h = (Return guild, h1) ->
  resolveForum client guild channelIdentifier h1 = (Return forumChannel, h2) ->
  channels_fetch client h2 guild threadId = Fulfilled (Some thread) ->
  ch_type thread = PublicThread ->
  ch_parent thread = Some (ch_id forumChannel) ->
  (forall tagName, In tagName tagNames ->
                   tagNameMatches forumChannel tagName = true) ->
  (forall tagIds,
     setAppliedTags client (h2 ++ [ChannelsFetch (guild_id guild) threadId])
       thread tagIds = Fulfilled tt) ->
  exists newTagIds text,
    addThreadTags client server channelIdentifier threadId tagNames h =
      (Return text,
       h2 ++ [ChannelsFetch (guild_id guild) threadId;
              SetAppliedTags (ch_id thread) newTagIds]) /\
    NoDup newTagIds /\
    (forall tagId, In tagId (ch_appliedTags thread) -> In tagId newTagIds) /\
    (forall tagName,
       In tagName tagNames ->
       exists tag,
         In tag (ch_availableTags forumChannel) /\
         equalsIgnoreCase (tag_name tag) tagName /\
         In (tag_id tag) newTagIds) /\
    (forall tagId,
       In tagId newTagIds ->
       In tagId (ch_appliedTags thread) \/
       exists tag tagName,
         In tag (ch_availableTags forumChannel) /\
         In tagName tagNames /\
         equalsIgnoreCase (tag_name tag) tagName /\
         tag_id tag = tagId) /\
    (NoDup (ch_appliedTags thread) ->
     exists added, newTagIds = ch_appliedTags thread ++ added).
Proof.
  intros Hguild Hforum Hfetch Htype Hparent Hall Hset.
  pose proof (TagFacts.resolveTagNames_unmatched forumChannel tagNames) as Hnf.
  rewrite (MoreTagFacts.all_matched _ _ Hall) in Hnf.
  pose proof (MoreTagFacts.resolveTagNames_In forumChannel tagNames) as Hids.
  destruct (resolveTagNames forumChannel tagNames) as [tagIds notFoundTags] eqn:Hres.
  simpl in Hnf, Hids. subst notFoundTags.
  exists (Js.uniq (ch_appliedTags thread ++ tagIds) []). eexists.
  split; [|split; [|split; [|split; [|split]]]].
  - unfold addThreadTags.
    rewrite (MonadFacts.bind_Return _ _ _ _ _ Hguild).
    rewrite (MonadFacts.bind_Return _ _ _ _ _ Hforum).
    rewrite (MonadFacts.bind_Return _ _ _ _ _
               (MonadFacts.await_Fulfilled _
                  (fun h => channels_fetch client h guild threadId) _ _ Hfetch)).
    rewrite Htype, Hparent, String.eqb_refl, Hres. cbn [ChannelType_eqb negb orb length Nat.ltb Nat.leb].
    rewrite (MonadFacts.bind_Return _ _ _ _ _
               (MonadFacts.await_Fulfilled _
                  (fun h => setAppliedTags client h thread
                              (Js.uniq (ch_appliedTags thread ++ tagIds) []))
                  _ _ (Hset _))).
    unfold ret. rewrite <- app_assoc. reflexivity.
  - apply MoreTagFacts.uniq_NoDup.
  - intros tagId Hin. apply MoreTagFacts.uniq_In. rewrite in_app_iff. tauto.
  - intros tagName Hin.
    pose proof (Hall tagName Hin) as Hmatch. unfold tagNameMatches in Hmatch.
    destruct (JsArray.find
                (fun tag => Js.toLowerCase (tag_name tag) =? Js.toLowerCase tagName)
                (ch_availableTags forumChannel)) as [tag|] eqn:Hfind.
    + destruct (MoreTagFacts.find_by_name _ _ _ Hfind) as [Htag Hname].
      exists tag. repeat split; try assumption.
      apply MoreTagFacts.uniq_In. rewrite in_app_iff. split; [|tauto].
      right. apply Hids. now exists tagName, tag.
    + apply TagFacts.find_none_existsb in Hfind. congruence.
  - intros tagId Hin. apply MoreTagFacts.uniq_In in Hin.
    destruct Hin as [Hin _]. apply in_app_iff in Hin.
    destruct Hin as [Hin|Hin]; [now left|right].
    apply Hids in Hin. destruct Hin as [tagName [tag [Hname [Hfind Hid]]]].
    destruct (MoreTagFacts.find_by_name _ _ _ Hfind) as [Htag Heq].
    now exists tag, tagName.
  - intros Hnd. apply MoreTagFacts.uniq_prefix; [assumption|].
    intros x _ [].
Qed.

(** The thread "Library", tagged "Answered", is given "important" and
    "ANSWERED". *)
Lemma add_thread_tags_keeps_and_adds_witness :
  exists newTagIds text,
    addThreadTags Scenario.community None "qna" "401"
      ["important"; "ANSWERED"] [] =
      (Return text,
       [ChannelsFetch "100" "qna"] ++
       [ChannelsFetch "100" "401"; SetAppliedTags "401" newTagIds]) /\
    NoDup newTagIds /\
    (forall tagId, In tagId ["t1"] -> In tagId newTagIds) /\
    (forall tagName,
       In tagName ["important"; "ANSWERED"] ->
       exists tag,
         In tag [Scenario.answered; Scenario.important] /\
         equalsIgnoreCase (tag_name tag) tagName /\
         In (tag_id tag) newTagIds) /\
    (forall tagId,
       In tagId newTagIds ->
       In tagId ["t1"] \/
       exists tag tagName,
         In tag [Scenario.answered; Scenario.important] /\
         In tagName ["important"; "ANSWERED"] /\
         equalsIgnoreCase (tag_name tag) tagName /\
         tag_id tag = tagId) /\
    (NoDup ["t1"] -> exists added, newTagIds = ["t1"] ++ added).
Proof.
  apply (add_thread_tags_keeps_and_adds Scenario.community None "qna" "401"
           ["important"; "ANSWERED"] [] [] [ChannelsFetch "100" "qna"]
           Scenario.alpha Scenario.qna Scenario.library);
    try reflexivity.
  intros tagName [<-|[<-|[]]]; reflexivity.
Defined.

Module ThreadCheckFacts.

Lemma ChannelType_eqb_eq (a b : ChannelType) :
  ChannelType_eqb a b = true <-> a = b.
Proof. destruct a, b; simpl; split; congruence. Qed.

Lemma ChannelType_eqb_neq (a b : ChannelType) :
  ChannelType_eqb a b = false <-> a <> b.
Proof. destruct a, b; simpl; split; congruence. Qed.

End ThreadCheckFacts.

(** X7.  When the channel fetched for [threadId] is missing, is not a
    public thread, or is not a thread of the resolved forum,
    [add-thread-tags] throws the error that the thread is not found in that
    forum.  The tag names are not looked at, and the requests issued are
    lookups only. *)
Theorem add_thread_tags_thread_outside_forum
  (client : Client) (server : option string) (channelIdentifier threadId : string)
  (tagNames : list string) (h h1 h2 : History) (guild : Guild)
  (forumChannel : Channel) (fetched : option Channel) :
  findGuild client server h = (Return guild, h1) ->
  resolveForum client guild channelIdentifier h1 = (Return forumChannel, h2) ->
  channels_fetch client h2 guild threadId = Fulfilled fetched ->
  match fetched with
  | Some thread =>
      ch_type thread <> PublicThread \/
      ch_parent thread <> Some (ch_id forumChannel)
  | None => True
  end ->
  exists calls,
    addThreadTags client server channelIdentifier threadId tagNames h =
      (Throw (Error
                ("Thread " ++ Js.quoted threadId ++
                 " not found in forum channel " ++
                 Js.quoted (ch_name forumChannel))%string),
       h ++ calls) /\
    Forall (fun c => isLookup c = true) calls.
Proof.
  intros Hguild Hforum Hfetch Houtside.
  destruct (MonadFacts.issues_run _ _ _ _ _
              (ResolverFacts.findGuild_issues client server) Hguild)
    as [calls1 [-> Hlookups1]].
  destruct (MonadFacts.issues_run _ _ _ _ _
              (ResolverFacts.resolveForum_issues client guild channelIdentifier)
              Hforum)
    as [calls2 [-> Hlookups2]].
  exists (calls1 ++ calls2 ++ [ChannelsFetch (guild_id guild) threadId]). split.
  - unfold addThreadTags.
    rewrite (MonadFacts.bind_Return _ _ _ _ _ Hguild).
    rewrite (MonadFacts.bind_Return _ _ _ _ _ Hforum).
    rewrite (MonadFacts.bind_Return _ _ _ _ _
               (MonadFacts.await_Fulfilled _
                  (fun h => channels_fetch client h guild threadId) _ _ Hfetch)).
    rewrite <- !app_assoc.
    destruct fetched as [thread|]; [|reflexivity].
    destruct Houtside as [Htype|Hparent].
    + apply ThreadCheckFacts.ChannelType_eqb_neq in Htype. now rewrite Htype.
    + destruct (ChannelType_eqb (ch_type thread) PublicThread); [|reflexivity].
      destruct (ch_parent thread) as [p|]; [|reflexivity].
      destruct (String.eqb_spec p (ch_id forumChannel)) as [->|_];
        [now elim Hparent|reflexivity].
  - rewrite app_assoc. apply Forall_app. split.
    + apply Forall_app. now split.
    + constructor; [reflexivity|constructor].
Qed.

(** The forum channel itself given as the thread. *)
Lemma add_thread_tags_thread_outside_forum_witness :
  exists calls,
    addThreadTags Scenario.community None "qna" "300" ["Answered"] [] =
      (Throw (Error
                ("Thread " ++ Js.quoted "300" ++
                 " not found in forum channel " ++ Js.quoted "qna")%string),
       [] ++ calls) /\
    Forall (fun c => isLookup c = true) calls.
Proof.
  apply (add_thread_tags_thread_outside_forum Scenario.community None "qna"
           "300" ["Answered"] [] [] [ChannelsFetch "100" "qna"]
           Scenario.alpha Scenario.qna (Some Scenario.qna));
    try reflexivity.
  left. discriminate.
Defined.

(* ================================================================= *)
(** ** unarchive-thread, further *)

(** X8.  For a fetched thread channel that is archived, [unarchive-thread]
    issues [setArchived(false, reason)] on that thread as its last request.
    When the update succeeds the handler returns the text that names the
    thread, its id and, if one was given and is not empty, the reason;
    when the update is rejected, the rejection is what the handler
    throws. *)
Theorem unarchive_archived_thread
  (client : Client) (server : option string) (threadId : string)
  (reason : option string) (h h1 : History) (guild : Guild) (thread : Channel) :
  findGuild client server h = (Return guild, h1) ->
  channels_fetch client h1 guild threadId = Fulfilled (Some thread) ->
  isThreadChannel thread = true ->
  ch_archived thread = true ->
  let h2 := h1 ++ [ChannelsFetch (guild_id guild) threadId] in
  (setArchived client h2 thread false reason = Fulfilled tt ->
   unarchiveThread client server threadId reason h =
     (Return
        ("Thread " ++ Js.quoted (ch_name thread) ++ " (ID: " ++ ch_id thread ++
         ") has been successfully unarchived and is now active." ++
         match reason with
         | Some r => if r =? EmptyString then EmptyString
                     else newline ++ "Reason: " ++ r
         | None => EmptyString
         end)%string,
      h2 ++ [SetArchived (ch_id thread) false reason])) /\
  (forall failure,
     setArchived client h2 thread false reason = Rejected failure ->
     unarchiveThread client server threadId reason h =
       (Throw (Rejection failure),
        h2 ++ [SetArchived (ch_id thread) false reason])).
Proof.
  intros Hguild Hfetch Hthread Harchived h2.
  assert (Hprefix :
            unarchiveThread client server threadId reason h =
            bind
              (await (SetArchived (ch_id thread) false reason)
                 (fun h => setArchived client h thread false reason))
              (fun _ =>
                 ret ("Thread " ++ Js.quoted (ch_name thread) ++ " (ID: " ++
                      ch_id thread ++
                      ") has been successfully unarchived and is now active." ++
                      match reason with
                      | Some r => if Js.truthy r
                                  then (newline ++ "Reason: " ++ r)%string
                                  else EmptyString
                      | None => EmptyString
                      end)%string) h2).
  { unfold unarchiveThread.
    rewrite (MonadFacts.bind_Return _ _ _ _ _ Hguild).
    rewrite (MonadFacts.bind_Return _ _ _ _ _
               (MonadFacts.await_Fulfilled _
                  (fun h => channels_fetch client h guild threadId) _ _ Hfetch)).
    now rewrite Hthread, Harchived. }
  split.
  - intros Hok. rewrite Hprefix.
    rewrite (MonadFacts.bind_Return _ _ _ _ _
               (MonadFacts.await_Fulfilled _
                  (fun h => setArchived client h thread false reason) _ _ Hok)).
    unfold ret. do 2 f_equal.
    destruct reason as [r|]; [|reflexivity].
    unfold Js.truthy. now destruct (r =? EmptyString).
  - intros failure Hfail. rewrite Hprefix.
    now rewrite (MonadFacts.bind_Throw _ _ _ _ _
                   (MonadFacts.await_Rejected _
                      (fun h => setArchived client h thread false reason)
                      _ _ Hfail)).
Qed.

(** The archived thread "Hamster" of the sample community. *)
Lemma unarchive_archived_thread_witness :
  unarchiveThread Scenario.community None "501" (Some "why") [] =
    (Return
       ("Thread " ++ Js.quoted "Hamster" ++ " (ID: " ++ "501" ++
        ") has been successfully unarchived and is now active." ++
        newline ++ "Reason: " ++ "why")%string,
     ([] ++ [ChannelsFetch "100" "501"]) ++ [SetArchived "501" false (Some "why")]).
Proof.
  exact (proj1 (unarchive_archived_thread Scenario.community None "501"
                  (Some "why") [] [] Scenario.alpha Scenario.buried1
                  eq_refl eq_refl eq_refl eq_refl) eq_refl).
Defined.

(** X9.  In every run, whatever the client answers, [unarchive-thread]
    issues nothing but lookups and at most one update, and that update is
    [setArchived(false, ...)]: it never archives a thread and never sets
    tags. *)
Theorem unarchive_thread_only_unarchives
  (client : Client) (server : option string) (threadId : string)
  (reason : option string) (h : History) :
  exists r calls,
    unarchiveThread client server threadId reason h = (r, h ++ calls) /\
    Forall lookupOrUnarchive calls /\
    (length (filter mutating calls) <= 1)%nat.
Proof.
  apply (EmitFacts.emits_run
           (fun calls => Forall lookupOrUnarchive calls /\
                         (length (filter mutating calls) <= 1)%nat)).
  set (Qlook := fun calls : History => Forall (fun c => isLookup c = true) calls).
  set (Qone := fun calls : History =>
                 Forall lookupOrUnarchive calls /\
                 (length (filter mutating calls) <= 1)%nat).
  assert (Hlook : forall calls, Qlook calls -> Qone calls).
  { intros calls Hc. split.
    - eapply Forall_impl; [|exact Hc]. intros c Hl. now left.
    - rewrite (EmitFacts.lookups_not_mutating calls Hc). simpl. lia. }
  assert (Hjoin : forall calls1 calls2,
             Qlook calls1 -> Qone calls2 -> Qone (calls1 ++ calls2)).
  { intros calls1 calls2 H1 [H2 H3]. split.
    - apply Forall_app. split; [|assumption].
      eapply Forall_impl; [|exact H1]. intros c Hl. now left.
    - rewrite filter_app, length_app,
        (EmitFacts.lookups_not_mutating calls1 H1). simpl. lia. }
  unfold unarchiveThread.
  apply (EmitFacts.emits_bind Qlook Qone);
    [exact (ResolverFacts.findGuild_issues client server)| |exact Hlook|exact Hjoin].
  intros guild.
  apply (EmitFacts.emits_bind Qlook Qone); [| |exact Hlook|exact Hjoin].
  - apply EmitFacts.emits_await. repeat constructor.
  - intros [thread|]; [|apply EmitFacts.emits_throw, Hlook; constructor].
    destruct (negb (isThreadChannel thread));
      [apply EmitFacts.emits_throw, Hlook; constructor|].
    destruct (negb (ch_archived thread));
      [apply EmitFacts.emits_ret, Hlook; constructor|].
    apply (EmitFacts.emits_bind Qone Qlook Qone).
    + apply EmitFacts.emits_await. split.
      * constructor; [|constructor]. right. now eexists _, _.
      * simpl. lia.
    + intros _. apply EmitFacts.emits_ret. constructor.
    + tauto.
    + intros calls1 calls2 H1 H2. destruct H1 as [H1 H3]. split.
      * apply Forall_app. split; [assumption|].
        eapply Forall_impl; [|exact H2]. intros c Hl. now left.
      * rewrite filter_app, length_app,
          (EmitFacts.lookups_not_mutating calls2 H2). simpl. lia.
Qed.

(* ================================================================= *)
(** ** The forum tools: what they ask of the client *)

Module BudgetFacts.

Section WithClient.
Variable client : Client.

Lemma fetchAllArchived_issues (P : Call -> Prop) (forumChannel : Channel) :
  (forall opts, P (FetchArchived (ch_id forumChannel) opts)) ->
  forall remaining before all,
    issues P (fetchAllArchived client remaining forumChannel before all).
Proof.
  intros HP. induction remaining as [|remaining IH]; intros before all.
  - apply MonadFacts.issues_ret.
  - cbn [fetchAllArchived].
    apply MonadFacts.issues_bind; [apply MonadFacts.issues_await, HP|].
    intros batch. destruct (Collection.size batch =? 0)%nat.
    + apply MonadFacts.issues_ret.
    + apply IH.
Qed.

Lemma forEach_issues {A B} (P : Call -> Prop) (body : A -> M B) (l : list A) :
  (forall x, issues P (body x)) -> issues P (forEach body l).
Proof.
  intros Hbody. induction l as [|x l IH]; simpl.
  - apply MonadFacts.issues_ret.
  - apply MonadFacts.issues_bind; [apply Hbody|]. intros y.
    apply MonadFacts.issues_bind; [apply IH|]. intros ys.
    apply MonadFacts.issues_ret.
Qed.

Lemma readThread_issues (P : Call -> Prop) guild forumChannel before thread :
  (forall opts, P (MessagesFetch (ch_id thread) opts)) ->
  issues P (readThread client guild forumChannel before thread).
Proof.
  intros HP. unfold readThread.
  apply MonadFacts.issues_bind; [apply MonadFacts.issues_await, HP|].
  intros messages. apply MonadFacts.issues_ret.
Qed.

Lemma fetchActiveThreads_issues (P : Call -> Prop) (forumChannel : Channel) :
  P (FetchActive (ch_id forumChannel)) ->
  issues P (fetchActiveThreads client forumChannel).
Proof.
  intros HP. unfold fetchActiveThreads.
  apply MonadFacts.issues_bind; [now apply MonadFacts.issues_await|].
  intros active. apply MonadFacts.issues_ret.
Qed.

Lemma fetchArchivedOnce_issues (P : Call -> Prop) (forumChannel : Channel) all :
  (forall opts, P (FetchArchived (ch_id forumChannel) opts)) ->
  issues P (fetchArchivedOnce client forumChannel all).
Proof.
  intros HP. unfold fetchArchivedOnce.
  apply MonadFacts.issues_bind; [apply MonadFacts.issues_await, HP|].
  intros archived. apply MonadFacts.issues_ret.
Qed.

(** Resolution of guild and forum, under any predicate that lookups
    satisfy. *)
Lemma findGuild_issues_any (P : Call -> Prop) server :
  (forall c, isLookup c = true -> P c) ->
  issues P (findGuild client server).
Proof.
  intros HP. eapply MonadFacts.issues_impl; [exact HP|].
  apply ResolverFacts.findGuild_issues.
Qed.

Lemma resolveForum_issues_any (P : Call -> Prop) guild channelIdentifier :
  (forall c, isLookup c = true -> P c) ->
  issues P (resolveForum client guild channelIdentifier).
Proof.
  intros HP. eapply MonadFacts.issues_impl; [exact HP|].
  apply ResolverFacts.resolveForum_issues.
Qed.

(** The three reading tools issue only requests that satisfy [P], when
    lookups, the active-thread request, archived-thread requests and message
    requests do. *)
Lemma listThreads_issues (P : Call -> Prop) server channelIdentifier limit
  (includeArchived : bool) :
  (forall c, isLookup c = true -> P c) ->
  (forall forum, P (FetchActive forum)) ->
  (forall forum opts, includeArchived = true -> P (FetchArchived forum opts)) ->
  issues P (listThreads client server channelIdentifier limit includeArchived).
Proof.
  intros Hlook Hactive Harchived. unfold listThreads.
  apply MonadFacts.issues_bind; [now apply findGuild_issues_any|]. intros guild.
  apply MonadFacts.issues_bind; [now apply resolveForum_issues_any|]. intros forum.
  apply MonadFacts.issues_bind; [apply fetchActiveThreads_issues, Hactive|].
  intros all.
  apply MonadFacts.issues_bind; [|intros all'; apply MonadFacts.issues_ret].
  destruct includeArchived.
  - apply fetchArchivedOnce_issues. intros opts. now apply Harchived.
  - apply MonadFacts.issues_ret.
Qed.

Lemma searchThreads_issues (P : Call -> Prop) server channelIdentifier query
  limit (includeArchived exactMatch : bool) :
  (forall c, isLookup c = true -> P c) ->
  (forall forum, P (FetchActive forum)) ->
  (forall forum opts, includeArchived = true -> P (FetchArchived forum opts)) ->
  issues P (searchThreads client server channelIdentifier query limit
              includeArchived exactMatch).
Proof.
  intros Hlook Hactive Harchived. unfold searchThreads.
  apply MonadFacts.issues_bind; [now apply findGuild_issues_any|]. intros guild.
  apply MonadFacts.issues_bind; [now apply resolveForum_issues_any|]. intros forum.
  apply MonadFacts.issues_bind; [apply fetchActiveThreads_issues, Hactive|].
  intros all.
  apply MonadFacts.issues_bind; [|intros all'; apply MonadFacts.issues_ret].
  destruct includeArchived.
  - apply fetchAllArchived_issues. intros opts. now apply Harchived.
  - apply MonadFacts.issues_ret.
Qed.

Lemma readForumThreads_issues (P : Call -> Prop) server channelIdentifier
  limit before :
  (forall c, isLookup c = true -> P c) ->
  (forall forum, P (FetchActive forum)) ->
  (forall thread opts,
     fo_limit opts = messagesPerThread ->
     fo_before opts = cursorOf before ->
     P (MessagesFetch thread opts)) ->
  issues P (readForumThreads client server channelIdentifier limit before).
Proof.
  intros Hlook Hactive Hmessages. unfold readForumThreads.
  apply MonadFacts.issues_bind; [now apply findGuild_issues_any|]. intros guild.
  apply MonadFacts.issues_bind; [now apply resolveForum_issues_any|]. intros forum.
  apply MonadFacts.issues_bind; [apply MonadFacts.issues_await, Hactive|].
  intros threads. apply forEach_issues. intros thread. unfold readThread.
  apply MonadFacts.issues_bind; [|intros messages; apply MonadFacts.issues_ret].
  apply MonadFacts.issues_await. apply Hmessages; [reflexivity|].
  unfold cursorOf, Js.truthyValue, Js.truthy. simpl.
  destruct before as [[s|n]|]; try reflexivity.
  - now destruct (s =? EmptyString).
  - now destruct (n =? 0)%Z.
Qed.

(** The loop stays within its budget of requests, whatever the answers. *)
Lemma fetchAllArchived_budget (forumChannel : Channel) :
  forall remaining before all,
    emits (archivedWithin remaining)
      (fetchAllArchived client remaining forumChannel before all).
Proof.
  induction remaining as [|remaining IH]; intros before all.
  - apply EmitFacts.emits_ret. split; [apply Nat.le_refl|constructor].
  - cbn [fetchAllArchived].
    apply (EmitFacts.emits_bind
             (fun calls =>
                calls = [FetchArchived (ch_id forumChannel) (archivedOptions before)])
             (archivedWithin remaining)).
    + now apply EmitFacts.emits_await.
    + intros batch. destruct (Collection.size batch =? 0)%nat.
      * apply EmitFacts.emits_ret. split; [apply Nat.le_0_l|constructor].
      * apply IH.
    + intros calls ->. split.
      * unfold countArchived. simpl. lia.
      * constructor; [|constructor]. now intros forumId opts [= _ <-].
    + intros calls1 calls2 -> [Hcount Hlimit]. split.
      * unfold countArchived in *. simpl. lia.
      * constructor; [|assumption]. now intros forumId opts [= _ <-].
Qed.

End WithClient.

Lemma archivedWithin_after (n : nat) (calls1 calls2 : History) :
  Forall (fun c => isFetchArchived c = false) calls1 ->
  archivedWithin n calls2 ->
  archivedWithin n (calls1 ++ calls2).
Proof.
  intros Hnone [Hcount Hlimit]. split.
  - rewrite PaginationFacts.countArchived_app,
      (PaginationFacts.countArchived_none calls1 Hnone). exact Hcount.
  - apply Forall_app. split; [|assumption].
    eapply Forall_impl; [|exact Hnone].
    intros c Hc forumId opts ->. discriminate.
Qed.

Lemma archivedWithin_none (n : nat) (calls : History) :
  Forall (fun c => isFetchArchived c = false) calls -> archivedWithin n calls.
Proof.
  intros Hnone. rewrite <- (app_nil_r calls).
  apply archivedWithin_after; [assumption|].
  split; [apply Nat.le_0_l|constructor].
Qed.

End BudgetFacts.

(** X10.  [list-threads], [search-threads] and [read-forum-threads] only
    read: in every run, whatever the client answers and whether the run
    returns or throws, none of the requests issued sets tags or the
    archived flag. *)
Theorem reading_tools_never_update
  (client : Client) (server : option string) (channelIdentifier query : string)
  (limit : nat) (includeArchived exactMatch : bool)
  (before : option Js.StrOrNum) (h : History) :
  (exists r calls,
     listThreads client server channelIdentifier limit includeArchived h =
       (r, h ++ calls) /\
     Forall (fun c => mutating c = false) calls) /\
  (exists r calls,
     searchThreads client server channelIdentifier query limit includeArchived
       exactMatch h = (r, h ++ calls) /\
     Forall (fun c => mutating c = false) calls) /\
  (exists r calls,
     readForumThreads client server channelIdentifier limit before h =
       (r, h ++ calls) /\
     Forall (fun c => mutating c = false) calls).
Proof.
  split; [|split]; apply EmitFacts.emits_run, EmitFacts.issues_emits.
  - apply BudgetFacts.listThreads_issues;
      [exact ResolverFacts.lookup_not_mutating|reflexivity|reflexivity].
  - apply BudgetFacts.searchThreads_issues;
      [exact ResolverFacts.lookup_not_mutating|reflexivity|reflexivity].
  - apply BudgetFacts.readForumThreads_issues;
      [exact ResolverFacts.lookup_not_mutating|reflexivity|reflexivity].
Qed.

(** X11.  The archived-thread requests of a run are bounded whatever the
    client answers: [list-threads] issues none without [includeArchived]
    and at most one with it; [search-threads] issues none without
    [includeArchived] and at most [maxFetches] = 10 with it, each for up to
    100 threads; [read-forum-threads] issues none. *)
Theorem archived_requests_are_bounded
  (client : Client) (server : option string) (channelIdentifier query : string)
  (limit : nat) (includeArchived exactMatch : bool)
  (before : option Js.StrOrNum) (h : History) :
  (exists r calls,
     listThreads client server channelIdentifier limit includeArchived h =
       (r, h ++ calls) /\
     (countArchived calls <= if includeArchived then 1 else 0)%nat) /\
  (exists r calls,
     searchThreads client server channelIdentifier query limit includeArchived
       exactMatch h = (r, h ++ calls) /\
     (countArchived calls <= if includeArchived then 10 else 0)%nat /\
     Forall (fun c => forall forumId opts,
                 c = FetchArchived forumId opts ->
                 ao_limit opts = Some 100%nat) calls) /\
  (exists r calls,
     readForumThreads client server channelIdentifier limit before h =
       (r, h ++ calls) /\
     countArchived calls = 0%nat).
Proof.
  set (Qnone := fun calls : History =>
                  Forall (fun c => isFetchArchived c = false) calls).
  assert (Hlook : forall A (m : M A),
             issues (fun c => isLookup c = true) m -> emits Qnone m).
  { intros A m Hm. apply EmitFacts.issues_emits.
    eapply MonadFacts.issues_impl; [|exact Hm].
    exact ResolverFacts.lookup_not_archived. }
  split; [|split].
  - set (Q := fun calls : History =>
                (countArchived calls <= if includeArchived then 1 else 0)%nat).
    apply (EmitFacts.emits_run Q).
    assert (Hafter : forall calls1 calls2,
               Qnone calls1 -> Q calls2 -> Q (calls1 ++ calls2)).
    { intros calls1 calls2 H1 H2. unfold Q.
      now rewrite PaginationFacts.countArchived_app,
        (PaginationFacts.countArchived_none calls1 H1). }
    assert (Hstop : forall calls, Qnone calls -> Q calls).
    { intros calls H1. unfold Q.
      rewrite (PaginationFacts.countArchived_none calls H1).
      apply Nat.le_0_l. }
    unfold listThreads.
    apply (EmitFacts.emits_bind Qnone Q Q);
      [apply Hlook, ResolverFacts.findGuild_issues| |exact Hstop|exact Hafter].
    intros guild.
    apply (EmitFacts.emits_bind Qnone Q Q);
      [apply Hlook, ResolverFacts.resolveForum_issues| |exact Hstop|exact Hafter].
    intros forum.
    apply (EmitFacts.emits_bind Qnone Q Q);
      [apply EmitFacts.issues_emits, BudgetFacts.fetchActiveThreads_issues;
       reflexivity| |exact Hstop|exact Hafter].
    intros all.
    apply (EmitFacts.emits_bind Q (fun calls => calls = []) Q).
    + unfold Q. destruct includeArchived.
      * unfold fetchArchivedOnce.
        apply (EmitFacts.emits_bind
                 (fun calls => (countArchived calls <= 1)%nat)
                 (fun calls => calls = [])).
        -- apply EmitFacts.emits_await. unfold countArchived. simpl. lia.
        -- intros archived. now apply EmitFacts.emits_ret.
        -- tauto.
        -- intros calls1 calls2 H1 ->. now rewrite app_nil_r.
      * apply EmitFacts.emits_ret. apply Nat.le_refl.
    + intros all'. now apply EmitFacts.emits_ret.
    + tauto.
    + intros calls1 calls2 H1 ->. now rewrite app_nil_r.
  - set (Q := archivedWithin (if includeArchived then maxFetches else 0)).
    apply (EmitFacts.emits_run Q).
    unfold searchThreads.
    apply (EmitFacts.emits_bind Qnone Q Q);
      [apply Hlook, ResolverFacts.findGuild_issues|
      |exact (BudgetFacts.archivedWithin_none _)
      |exact (BudgetFacts.archivedWithin_after _)].
    intros guild.
    apply (EmitFacts.emits_bind Qnone Q Q);
      [apply Hlook, ResolverFacts.resolveForum_issues|
      |exact (BudgetFacts.archivedWithin_none _)
      |exact (BudgetFacts.archivedWithin_after _)].
    intros forum.
    apply (EmitFacts.emits_bind Qnone Q Q);
      [apply EmitFacts.issues_emits, BudgetFacts.fetchActiveThreads_issues;
       reflexivity|
      |exact (BudgetFacts.archivedWithin_none _)
      |exact (BudgetFacts.archivedWithin_after _)].
    intros all.
    apply (EmitFacts.emits_bind Q (fun calls => calls = []) Q).
    + unfold Q. destruct includeArchived.
      * apply BudgetFacts.fetchAllArchived_budget.
      * apply EmitFacts.emits_ret. split; [apply Nat.le_refl|constructor].
    + intros all'. now apply EmitFacts.emits_ret.
    + tauto.
    + intros calls1 calls2 H1 ->. now rewrite app_nil_r.
  - destruct (EmitFacts.emits_run Qnone
                (readForumThreads client server channelIdentifier limit before) h)
      as [r [calls [Hrun Hnone]]].
    + apply EmitFacts.issues_emits, BudgetFacts.readForumThreads_issues;
        [exact ResolverFacts.lookup_not_archived|reflexivity|reflexivity].
    + exists r, calls. split; [assumption|].
      now apply PaginationFacts.countArchived_none.
Qed.


(* ================================================================= *)
(** ** search-threads: pagination failures; results of the listing tools *)

Module ResultFacts.

Lemma fetchAllArchived_step_rejected (client : Client) (forumChannel : Channel)
  (remaining : nat) before all h failure :
  threads_fetchArchived client h forumChannel (archivedOptions before) =
    Rejected failure ->
  fetchAllArchived client (S remaining) forumChannel before all h =
    (Throw (Rejection failure),
     h ++ [FetchArchived (ch_id forumChannel) (archivedOptions before)]).
Proof.
  intros Hfetch. cbn [fetchAllArchived].
  now rewrite (MonadFacts.bind_Throw _ _ _ _ _
                 (MonadFacts.await_Rejected _
                    (fun h => threads_fetchArchived client h forumChannel
                                (archivedOptions before)) _ _ Hfetch)).
Qed.

Lemma StronglySorted_app_between {A} (R : A -> A -> Prop) (l1 l2 : list A) :
  StronglySorted R (l1 ++ l2) ->
  forall x y, In x l1 -> In y l2 -> R x y.
Proof.
  induction l1 as [|a l1 IH]; simpl; intros Hs x y Hx Hy; [destruct Hx|].
  inversion Hs as [|? ? Hs' Hall]; subst.
  destruct Hx as [->|Hx].
  - rewrite Forall_forall in Hall. apply Hall, in_or_app. now right.
  - now apply (IH Hs').
Qed.

Lemma StronglySorted_map {A B} (R : A -> A -> Prop) (R' : B -> B -> Prop)
  (f : A -> B) (l : list A) :
  (forall a b, R a b -> R' (f a) (f b)) ->
  StronglySorted R l -> StronglySorted R' (map f l).
Proof.
  intros Hf. induction 1 as [|a l Hs IH Hall]; simpl; constructor.
  - exact IH.
  - rewrite Forall_forall in *. intros b Hb. apply in_map_iff in Hb.
    destruct Hb as [x [<- Hx]]. now apply Hf, Hall.
Qed.

Lemma sortAndLimit_In (limit : nat) (threads : list Channel) (t : Channel) :
  In t (sortAndLimit limit threads) -> In t threads.
Proof.
  unfold sortAndLimit, JsArray.slice0. intros Hin.
  apply SortFacts.firstn_In in Hin.
  eapply Permutation_in; [apply Permutation_sym, SortFacts.sort_perm|exact Hin].
Qed.


Section WithClient.
Variable client : Client.


Lemma listThreads_inv server channelIdentifier limit (includeArchived : bool)
  h r h' :
  listThreads client server channelIdentifier limit includeArchived h =
    (Return r, h') ->
  exists guild forumChannel all,
    r = mkListThreadsResult (ch_name forumChannel) (guild_name guild)
          (length (sortAndLimit limit (Collection.values all)))
          includeArchived
          (map (formatThread forumChannel)
               (sortAndLimit limit (Collection.values all))).
Proof.
  unfold listThreads, bind.
  destruct (findGuild client server h) as [[guild|e] h1]; [|discriminate].
  destruct (resolveForum client guild channelIdentifier h1) as [[forum|e] h2];
    [|discriminate].
  destruct (fetchActiveThreads client forum h2) as [[active|e] h3];
    [|discriminate].
  destruct includeArchived.
  - destruct (fetchArchivedOnce client forum active h3)
      as [[all|e] h4]; [|discriminate].
    unfold ret. intros [= <- _]. exists guild, forum, all.
    now rewrite length_map.
  - unfold ret. intros [= <- _]. exists guild, forum, active.
    now rewrite length_map.
Qed.

End WithClient.
End ResultFacts.

(** X13.  The pagination loop of [search-threads] never loses a thread
    and never fails on its own.  When it returns, every thread id it started
    with is still in the result.  When it throws, what it throws is the
    rejection of an archived-thread request, that request is the last one
    issued, and the threads collected so far are not returned. *)
Theorem archived_pagination_keeps_or_rejects
  (client : Client) (forumChannel : Channel) :
  forall remaining before all h,
    match fetchAllArchived client remaining forumChannel before all h with
    | (Return result, _) =>
        forall k, In k (Collection.keys all) -> In k (Collection.keys result)
    | (Throw e, h') =>
        exists failure earlier opts,
          e = Rejection failure /\
          h' = earlier ++ [FetchArchived (ch_id forumChannel) opts] /\
          threads_fetchArchived client earlier forumChannel opts =
            Rejected failure
    end.
Proof.
  induction remaining as [|remaining IH]; intros before all h.
  - simpl. tauto.
  - destruct (threads_fetchArchived client h forumChannel (archivedOptions before))
      as [batch|failure] eqn:Hfetch.
    + rewrite (PaginationFacts.fetchAllArchived_step _ _ _ _ _ _ _ Hfetch).
      destruct (Collection.size batch =? 0)%nat; [tauto|].
      specialize (IH (lastKey batch) (Collection.concat all batch)
                    (h ++ [FetchArchived (ch_id forumChannel)
                             (archivedOptions before)])).
      destruct (fetchAllArchived client remaining forumChannel (lastKey batch)
                  (Collection.concat all batch) _) as [[result|e] h'].
      * intros k Hk. apply IH, CollectionFacts.keys_concat_in. now left.
      * exact IH.
    + rewrite (ResultFacts.fetchAllArchived_step_rejected _ _ _ _ _ _ _ Hfetch).
      now exists failure, h, (archivedOptions before).
Qed.



(** X15.  A result of [list-threads] echoes [includeArchived];
    [totalThreads] is the number of threads returned and is at most
    [limit]; the threads returned are newest first. *)
Theorem list_threads_result_consistent
  (client : Client) (server : option string) (channelIdentifier : string)
  (limit : nat) (includeArchived : bool) (h h' : History)
  (r : ListThreadsResult) :
  listThreads client server channelIdentifier limit includeArchived h =
    (Return r, h') ->
  lt_includeArchived r = includeArchived /\
  lt_totalThreads r = length (lt_threads r) /\
  (lt_totalThreads r <= limit)%nat /\
  StronglySorted (fun a b => (createdTimestamp b <= createdTimestamp a)%Z)
    (lt_threads r).
Proof.
  intros Hrun.
  destruct (ResultFacts.listThreads_inv client _ _ _ _ _ _ _ Hrun)
    as [guild [forum [all ->]]].
  simpl. repeat split.
  - now rewrite length_map.
  - apply SortFacts.sortAndLimit_length.
  - apply (ResultFacts.StronglySorted_map newestFirst);
      [intros a b Hab; exact Hab|apply SortFacts.sortAndLimit_sorted].
Qed.

(** The listing of the sample community, limit 3. *)
Lemma list_threads_result_consistent_witness :
  exists r,
    listThreads Scenario.community None "qna" 3 false [] =
      (Return r, [ChannelsFetch "100" "qna"; FetchActive "300"]) /\
    lt_includeArchived r = false /\
    lt_totalThreads r = length (lt_threads r) /\
    (lt_totalThreads r <= 3)%nat /\
    StronglySorted (fun a b => (createdTimestamp b <= createdTimestamp a)%Z)
      (lt_threads r).
Proof.
  eexists. split; [reflexivity|].
  apply (list_threads_result_consistent Scenario.community None "qna" 3 false
           [] _ _ eq_refl).
Defined.

(** X16.  The limit keeps the newest threads: no thread that
    [sortAndLimit] leaves out was created after one that it returns, and
    every thread returned is one of the input.  With a limit that is not
    below the number of threads, nothing is left out. *)
Theorem limit_keeps_the_newest (limit : nat) (threads : list Channel) :
  (forall kept dropped,
     In kept (sortAndLimit limit threads) ->
     In dropped threads ->
     ~ In dropped (sortAndLimit limit threads) ->
     (ch_createdTimestamp dropped <= ch_createdTimestamp kept)%Z) /\
  (forall kept, In kept (sortAndLimit limit threads) -> In kept threads) /\
  ((length threads <= limit)%nat ->
   Permutation threads (sortAndLimit limit threads)).
Proof.
  split; [|split].
  - intros kept dropped Hkept Hdropped Hout.
    unfold sortAndLimit, JsArray.slice0 in *.
    pose proof (SortFacts.sort_sorted threads) as Hsorted.
    rewrite <- (firstn_skipn limit (JsArray.sort byCreatedDesc threads)) in Hsorted.
    apply (ResultFacts.StronglySorted_app_between _ _ _ Hsorted kept dropped Hkept).
    assert (Hin : In dropped (JsArray.sort byCreatedDesc threads))
      by (eapply Permutation_in; [apply SortFacts.sort_perm|exact Hdropped]).
    rewrite <- (firstn_skipn limit (JsArray.sort byCreatedDesc threads)) in Hin.
    apply in_app_or in Hin. tauto.
  - intros kept. apply ResultFacts.sortAndLimit_In.
  - intros Hlen. unfold sortAndLimit, JsArray.slice0.
    rewrite firstn_all2; [apply SortFacts.sort_perm|].
    now rewrite <- (Permutation_length (SortFacts.sort_perm threads)).
Qed.

(** Four threads created at 1, 3, 5 and 3, limit 2: the thread created at
    1 is left out, the one created at 5 is kept. *)
Lemma limit_keeps_the_newest_witness :
  (ch_createdTimestamp Scenario.oldest <= ch_createdTimestamp Scenario.library)%Z.
Proof.
  apply (proj1 (limit_keeps_the_newest 2
                  [Scenario.oldest; Scenario.libraryNotes; Scenario.library;
                   Scenario.library2])).
  - simpl. tauto.
  - simpl. tauto.
  - simpl. intros [H|[H|[]]]; discriminate.
Defined.

(** X17.  The name filter of [search-threads] at its edges.  With the
    empty query and without [exactMatch] it keeps every thread.  Two
    queries that differ in case only give the same result.  Every thread
    that the exact filter keeps, the containing filter keeps too. *)
Theorem search_filter_edges :
  (forall threads, filterThreads EmptyString false threads = threads) /\
  (forall query query' exactMatch threads,
     equalsIgnoreCase query query' ->
     filterThreads query exactMatch threads =
     filterThreads query' exactMatch threads) /\
  (forall query threads thread,
     In thread (filterThreads query true threads) ->
     In thread (filterThreads query false threads)).
Proof.
  split; [|split].
  - intros threads. unfold filterThreads.
    assert (Hall : forall t, matchesQuery EmptyString false t = true)
      by (intros t; apply MoreFacts.includes_empty_query).
    induction threads as [|t threads IH]; cbn [filter]; [reflexivity|].
    now rewrite Hall, IH.
  - intros query query' exactMatch threads Hsame.
    unfold filterThreads. apply filter_ext. intros t.
    unfold matchesQuery. unfold equalsIgnoreCase in Hsame. now rewrite Hsame.
  - intros query threads thread Hin.
    unfold filterThreads in *. apply filter_In in Hin. apply filter_In.
    destruct Hin as [Hin Hmatch]. split; [assumption|].
    apply FilterFacts.matchesQuery_exact in Hmatch.
    apply FilterFacts.matchesQuery_contains.
    unfold containsIgnoreCase, containsSubstring, equalsIgnoreCase in *.
    exists EmptyString, EmptyString. rewrite Hmatch. simpl.
    clear. induction (Js.toLowerCase query) as [|c s IH]; simpl; congruence.
Qed.

(** The queries "LIBRARY" and "library" on the sample threads. *)
Lemma search_filter_edges_witness :
  filterThreads "LIBRARY" true
    [Scenario.library; Scenario.library2; Scenario.libraryNotes] =
  filterThreads "library" true
    [Scenario.library; Scenario.library2; Scenario.libraryNotes].
Proof.
  apply (proj1 (proj2 search_filter_edges) "LIBRARY" "library" true).
  reflexivity.
Defined.

(* ================================================================= *)
(** ** Text channels: facts *)

Module MessagingFacts.
Import Messaging.

Lemma andThen_Return {A B} (m : Task A) (k : A -> Task B) log a log' :
  m log = (Return a, log') -> andThen m k log = k a log'.
Proof. unfold andThen. now intros ->. Qed.

Lemma andThen_Throw {A B} (m : Task A) (k : A -> Task B) log e log' :
  m log = (Throw e, log') -> andThen m k log = (Throw e, log').
Proof. unfold andThen. now intros ->. Qed.

Lemma awaitTask_Fulfilled {A} (r : Request) (answer : Log -> Settled A) log a :
  answer log = Fulfilled a -> awaitTask r answer log = (Return a, log ++ [r]).
Proof. unfold awaitTask, andThen, ask, done. now intros ->. Qed.

Lemma awaitTask_Rejected {A} (r : Request) (answer : Log -> Settled A) log f :
  answer log = Rejected f ->
  awaitTask r answer log = (Throw (Rejection f), log ++ [r]).
Proof. unfold awaitTask, andThen, ask, fail. now intros ->. Qed.

Section Logs.
Variable P : Request -> Prop.

Lemma logs_done {A} (a : A) : logs P (done a).
Proof. intros log. exists []. simpl. now rewrite app_nil_r. Qed.

Lemma logs_fail {A} (e : Exn) : logs P (@fail A e).
Proof. intros log. exists []. simpl. now rewrite app_nil_r. Qed.

Lemma logs_look {A} (read : Log -> A) : logs P (look read).
Proof. intros log. exists []. simpl. now rewrite app_nil_r. Qed.

Lemma logs_ask {A} (r : Request) (answer : Log -> Settled A) :
  P r -> logs P (ask r answer).
Proof. intros Hr log. exists [r]. simpl. auto. Qed.

Lemma logs_andThen {A B} (m : Task A) (k : A -> Task B) :
  logs P m -> (forall a, logs P (k a)) -> logs P (andThen m k).
Proof.
  intros Hm Hk log. unfold andThen.
  destruct (Hm log) as [asked1 [Heq1 Hall1]].
  destruct (m log) as [[a|e] log1]; simpl in Heq1; subst log1.
  - destruct (Hk a (log ++ asked1)) as [asked2 [Heq2 Hall2]].
    exists (asked1 ++ asked2). rewrite Heq2, app_assoc. split; [reflexivity|].
    apply Forall_app. now split.
  - exists asked1. now split.
Qed.

Lemma logs_awaitTask {A} (r : Request) (answer : Log -> Settled A) :
  P r -> logs P (awaitTask r answer).
Proof.
  intros Hr. unfold awaitTask. apply logs_andThen; [now apply logs_ask|].
  intros [a|f]; [apply logs_done|apply logs_fail].
Qed.

(** A computation of the forum layer logs what it issues. *)
Lemma logs_forum {A} (bot : Bot) (P' : Call -> Prop) (m : Client -> M A) :
  (forall client, issues P' (m client)) ->
  (forall c, P' c -> P (Forum c)) ->
  logs P (forum bot m).
Proof.
  intros Hm HP log. unfold forum.
  destruct (Hm (bot_client bot log) []) as [calls [Heq Hall]].
  destruct (m (bot_client bot log) []) as [r calls']. simpl in *. subst calls'.
  exists (map Forum calls). split; [reflexivity|].
  apply Forall_forall. intros r' Hin. apply in_map_iff in Hin.
  destruct Hin as [c [<- Hc]]. apply HP.
  rewrite Forall_forall in Hall. now apply Hall.
Qed.

End Logs.

Lemma logs_run {A} (P : Request -> Prop) (m : Task A) (log : Log) :
  logs P m -> exists r asked, m log = (r, log ++ asked) /\ Forall P asked.
Proof.
  intros Hm. destruct (Hm log) as [asked [Heq Hall]].
  exists (fst (m log)), asked. split; [|assumption].
  rewrite <- Heq. now destruct (m log).
Qed.

Section WithBot.
Variable bot : Bot.

(** [findChannel] issues guild lookups and the client-wide channel fetch,
    nothing else. *)
Lemma findChannel_logs (P : Request -> Prop) channelIdentifier guildIdentifier :
  (forall c, isLookup c = true -> P (Forum c)) ->
  (forall id, P (ClientChannelsFetch id)) ->
  logs P (findChannel bot channelIdentifier guildIdentifier).
Proof.
  intros Hlook Hfetch. unfold findChannel.
  apply logs_andThen.
  - apply (logs_forum P bot (fun c => isLookup c = true)); [|exact Hlook].
    intros client. apply ResolverFacts.findGuild_issues.
  - intros guild. apply logs_andThen; [apply logs_ask, Hfetch|].
    intros [[channel|]|f].
    + destruct (acceptable guild channel); [apply logs_done|apply logs_fail].
    + apply logs_fail.
    + apply logs_andThen; [apply logs_look|]. intros cache.
      destruct (Collection.filter _ cache) as [|[k c] [|e rest]];
        [apply logs_fail|apply logs_done|apply logs_fail].
Qed.

(** The outcomes of [findChannel] once the guild is resolved. *)
Lemma findChannel_cases channelIdentifier guildIdentifier log log1 guild :
  forum bot (fun client => findGuild client guildIdentifier) log =
    (Return guild, log1) ->
  findChannel bot channelIdentifier guildIdentifier log =
    (match client_channels_fetch bot log1 channelIdentifier with
     | Fulfilled (Some channel) =>
         if acceptable guild channel then Return channel
         else Throw (Error (notTextChannelMessage channelIdentifier guild))
     | Fulfilled None =>
         Throw (Error (notTextChannelMessage channelIdentifier guild))
     | Rejected _ =>
         match Collection.filter (textNameMatches channelIdentifier)
                 (channels_cache
                    (bot_client bot
                       (log1 ++ [ClientChannelsFetch channelIdentifier]))
                    [] guild) with
         | [] =>
             Throw (Error
                      ("Channel " ++ Js.quoted channelIdentifier ++
                       " not found in server " ++ Js.quoted (guild_name guild) ++
                       ". Available channels: " ++
                       Js.join ", "
                         (Collection.map
                            (fun c => Js.quoted ("#" ++ ch_name c)%string)
                            (Collection.filter isTextChannel
                               (channels_cache
                                  (bot_client bot
                                     (log1 ++ [ClientChannelsFetch
                                                 channelIdentifier])%list)
                                  [] guild))))%string)
         | [(_, channel)] => Return (mkGuildChannel channel guild)
         | (_ :: _ :: _) as channels =>
             Throw (Error
                      ("Multiple channels found with name " ++
                       Js.quoted channelIdentifier ++ " in server " ++
                       Js.quoted (guild_name guild) ++ ": " ++
                       Js.join ", "
                         (Collection.map
                            (fun c => ("#" ++ ch_name c ++ " (" ++ ch_id c ++ ")")%string)
                            channels) ++
                       ". Please specify the channel ID.")%string)
         end
     end,
     log1 ++ [ClientChannelsFetch channelIdentifier]).
Proof.
  intros Hguild. unfold findChannel.
  rewrite (andThen_Return _ _ _ _ _ Hguild).
  unfold andThen at 1. unfold ask.
  destruct (client_channels_fetch bot log1 channelIdentifier) as [[channel|]|f].
  - now destruct (acceptable guild channel).
  - reflexivity.
  - unfold andThen, look.
    destruct (Collection.filter _ _) as [|[k c] [|e rest]]; reflexivity.
Qed.

(** The guild lookup of a call without server identifier. *)
Lemma forum_findGuild_absent log :
  forum bot (fun client => findGuild client None) log =
    (match guilds_cache (bot_client bot log) [] with
     | [(_, guild)] => Return guild
     | cache =>
         Throw (Error ("Bot is in multiple servers. Please specify server name or ID. Available servers: " ++
                       availableServers cache)%string)
     end, log).
Proof.
  unfold forum.
  rewrite (MoreFacts.findGuild_absent (bot_client bot log) None [] eq_refl).
  simpl. now rewrite app_nil_r.
Qed.

End WithBot.
End MessagingFacts.

(* ================================================================= *)
(** ** findChannel, send-message, read-messages *)

(** X18.  Once the guild is resolved, a channel that the fetch by id
    yields decides the outcome of [findChannel] alone.  A text channel or a
    thread of that guild is returned.  Any other channel, a channel of
    another guild, or no channel makes [findChannel] throw the error that
    the channel is not a text channel or thread of the server; the names in
    the cache are not searched in that case, unlike in the forum lookup. *)
Theorem find_channel_by_id_decides
  (bot : Messaging.Bot) (channelIdentifier : string)
  (guildIdentifier : option string) (log log1 : Messaging.Log) (guild : Guild)
  (fetched : option Messaging.GuildChannel) :
  Messaging.forum bot (fun client => findGuild client guildIdentifier) log =
    (Return guild, log1) ->
  Messaging.client_channels_fetch bot log1 channelIdentifier = Fulfilled fetched ->
  (forall channel,
     fetched = Some channel ->
     (Messaging.isTextChannel (Messaging.gc_channel channel) = true \/
      isThreadChannel (Messaging.gc_channel channel) = true) ->
     guild_id (Messaging.gc_guild channel) = guild_id guild ->
     Messaging.findChannel bot channelIdentifier guildIdentifier log =
       (Return channel,
        log1 ++ [Messaging.ClientChannelsFetch channelIdentifier])) /\
  (match fetched with
   | Some channel =>
       (Messaging.isTextChannel (Messaging.gc_channel channel) = false /\
        isThreadChannel (Messaging.gc_channel channel) = false) \/
       guild_id (Messaging.gc_guild channel) <> guild_id guild
   | None => True
   end ->
   Messaging.findChannel bot channelIdentifier guildIdentifier log =
     (Throw (Error
               ("Channel " ++ Js.quoted channelIdentifier ++
                " is not a text channel/thread or not found in server " ++
                Js.quoted (guild_name guild))%string),
      log1 ++ [Messaging.ClientChannelsFetch channelIdentifier])).
Proof.
  intros Hguild Hfetch.
  rewrite (MessagingFacts.findChannel_cases bot _ _ _ _ _ Hguild), Hfetch.
  split.
  - intros channel -> Hkind Hsame. unfold Messaging.acceptable.
    rewrite Hsame, String.eqb_refl, !andb_true_r.
    destruct Hkind as [-> | ->]; [reflexivity|now rewrite orb_true_r].
  - destruct fetched as [channel|]; [|reflexivity].
    intros Hbad. unfold Messaging.acceptable.
    destruct Hbad as [[-> ->]|Hother]; [reflexivity|].
    apply String.eqb_neq in Hother. now rewrite Hother, !andb_false_r.
Qed.

(** The voice channel "603" and the text channel "700" of another guild,
    asked for by id. *)
Lemma find_channel_by_id_decides_witness :
  Messaging.findChannel TextScenario.townBot "603" None [] =
    (Throw (Error
              ("Channel " ++ Js.quoted "603" ++
               " is not a text channel/thread or not found in server " ++
               Js.quoted "Alpha")%string),
     [] ++ [Messaging.ClientChannelsFetch "603"]) /\
  Messaging.findChannel TextScenario.townBot "700" None [] =
    (Throw (Error
              ("Channel " ++ Js.quoted "700" ++
               " is not a text channel/thread or not found in server " ++
               Js.quoted "Alpha")%string),
     [] ++ [Messaging.ClientChannelsFetch "700"]).
Proof.
  split.
  - apply (proj2 (find_channel_by_id_decides TextScenario.townBot "603" None
                    [] [] Scenario.alpha
                    (Some (TextScenario.inAlpha TextScenario.voice))
                    eq_refl eq_refl)).
    left. split; reflexivity.
  - apply (proj2 (find_channel_by_id_decides TextScenario.townBot "700" None
                    [] [] Scenario.alpha _ eq_refl eq_refl)).
    right. discriminate.
Defined.

(** X19.  Whatever [findChannel] returns is a text channel or a thread of
    the guild it resolved, and it has issued one channel fetch after the
    guild lookup.  The channel is either the one that the fetch by id
    yielded, or, the fetch having been rejected, a text channel of the
    guild's cache whose name matches the identifier: a thread is never
    found by name. *)
Theorem find_channel_yields_text_or_thread
  (bot : Messaging.Bot) (channelIdentifier : string)
  (guildIdentifier : option string) (log log' : Messaging.Log)
  (channel : Messaging.GuildChannel) :
  Messaging.findChannel bot channelIdentifier guildIdentifier log =
    (Return channel, log') ->
  exists guild log1,
    Messaging.forum bot (fun client => findGuild client guildIdentifier) log =
      (Return guild, log1) /\
    log' = log1 ++ [Messaging.ClientChannelsFetch channelIdentifier] /\
    guild_id (Messaging.gc_guild channel) = guild_id guild /\
    (Messaging.isTextChannel (Messaging.gc_channel channel) = true \/
     isThreadChannel (Messaging.gc_channel channel) = true) /\
    (Messaging.client_channels_fetch bot log1 channelIdentifier =
       Fulfilled (Some channel) \/
     ((exists failure,
         Messaging.client_channels_fetch bot log1 channelIdentifier =
           Rejected failure) /\
      Messaging.gc_guild channel = guild /\
      Messaging.textNameMatches channelIdentifier (Messaging.gc_channel channel)
        = true /\
      In (Messaging.gc_channel channel)
         (Collection.values
            (channels_cache (Messaging.bot_client bot log') [] guild)))).
Proof.
  intros Hrun.
  destruct (Messaging.forum bot (fun client => findGuild client guildIdentifier)
              log) as [[guild|e] log1] eqn:Hguild.
  - rewrite (MessagingFacts.findChannel_cases bot _ _ _ _ _ Hguild) in Hrun.
    exists guild, log1. split; [reflexivity|].
    destruct (Messaging.client_channels_fetch bot log1 channelIdentifier)
      as [[fetched|]|failure] eqn:Hfetch.
    + destruct (Messaging.acceptable guild fetched) eqn:Hok; [|discriminate].
      injection Hrun as <- <-. split; [reflexivity|].
      unfold Messaging.acceptable in Hok.
      apply orb_true_iff in Hok.
      destruct Hok as [Hok|Hok]; apply andb_true_iff in Hok;
        destruct Hok as [Hkind Hsame]; apply String.eqb_eq in Hsame;
        (split; [assumption|split; [tauto|now left]]).
    + discriminate.
    + destruct (Collection.filter _ _) as [|[k c] [|e rest]] eqn:Hfilter;
        try discriminate.
      injection Hrun as <- <-. split; [reflexivity|].
      destruct (MoreFacts.In_singleton_filter _ _ _ _ Hfilter) as [Hin Hmatch].
      simpl. split; [reflexivity|].
      assert (Htext : Messaging.isTextChannel c = true).
      { unfold Messaging.textNameMatches in Hmatch.
        now apply andb_true_iff in Hmatch. }
      split; [now left|right].
      split; [now exists failure|]. repeat split; assumption.
  - unfold Messaging.findChannel in Hrun.
    rewrite (MessagingFacts.andThen_Throw _ _ _ _ _ Hguild) in Hrun.
    discriminate.
Qed.

(** The text channel "general", found under the identifier "#General". *)
Lemma find_channel_yields_text_or_thread_witness :
  exists guild log1,
    Messaging.forum TextScenario.townBot (fun client => findGuild client None)
      [] = (Return guild, log1) /\
    [Messaging.ClientChannelsFetch "#General"] =
      log1 ++ [Messaging.ClientChannelsFetch "#General"] /\
    guild_id Scenario.alpha = guild_id guild /\
    (Messaging.isTextChannel TextScenario.general = true \/
     isThreadChannel TextScenario.general = true) /\
    (Messaging.client_channels_fetch TextScenario.townBot log1 "#General" =
       Fulfilled (Some (TextScenario.inAlpha TextScenario.general)) \/
     ((exists failure,
         Messaging.client_channels_fetch TextScenario.townBot log1 "#General" =
           Rejected failure) /\
      Scenario.alpha = guild /\
      Messaging.textNameMatches "#General" TextScenario.general = true /\
      In TextScenario.general
         (Collection.values
            (channels_cache
               (Messaging.bot_client TextScenario.townBot
                  [Messaging.ClientChannelsFetch "#General"])
               [] guild)))).
Proof.
  apply (find_channel_yields_text_or_thread TextScenario.townBot "#General"
           None [] [Messaging.ClientChannelsFetch "#General"]
           (TextScenario.inAlpha TextScenario.general)).
  reflexivity.
Defined.

(** X20.  [send-message] and [read-messages] do not read their [server]
    argument: they look the guild up without identifier.  So when the
    client's cache does not hold exactly one guild, both throw the error
    that asks for a server, whatever [server] is, and issue no request:
    nothing is sent and nothing is read. *)
Theorem messaging_tools_ignore_server
  (bot : Messaging.Bot) (server : option string)
  (channelIdentifier message : string) (limit : nat)
  (before : option Js.StrOrNum) (log : Messaging.Log) :
  Collection.size (guilds_cache (Messaging.bot_client bot log) []) <> 1%nat ->
  let asksForServer :=
    Error
      ("Bot is in multiple servers. Please specify server name or ID. Available servers: " ++
       Js.join ", "
         (map (fun g => Js.quoted (guild_name g))
              (Collection.values
                 (guilds_cache (Messaging.bot_client bot log) []))))%string in
  Messaging.sendMessage bot server channelIdentifier message log =
    (Throw asksForServer, log) /\
  Messaging.readMessages bot server channelIdentifier limit before log =
    (Throw asksForServer, log).
Proof.
  intros Hsize asksForServer.
  assert (Hguild :
            Messaging.forum bot (fun client => findGuild client None) log =
            (Throw asksForServer, log)).
  { rewrite MessagingFacts.forum_findGuild_absent. subst asksForServer.
    destruct (guilds_cache (Messaging.bot_client bot log) [])
      as [|[k g] [|e rest]];
      [|now elim Hsize|];
      unfold availableServers; now rewrite MoreFacts.map_values. }
  assert (Hchannel :
            Messaging.findChannel bot channelIdentifier None log =
            (Throw asksForServer, log)).
  { unfold Messaging.findChannel.
    now rewrite (MessagingFacts.andThen_Throw _ _ _ _ _ Hguild). }
  split.
  - unfold Messaging.sendMessage.
    now rewrite (MessagingFacts.andThen_Throw _ _ _ _ _ Hchannel).
  - unfold Messaging.readMessages.
    now rewrite (MessagingFacts.andThen_Throw _ _ _ _ _ Hchannel).
Qed.

(** The bot in three guilds is told the server "Alpha" and the channel
    "general", of which there is one. *)
Lemma messaging_tools_ignore_server_witness :
  Messaging.sendMessage TextScenario.twinsBot (Some "Alpha") "general" "hi" [] =
    (Throw (Error
              ("Bot is in multiple servers. Please specify server name or ID. Available servers: " ++
               Js.join ", "
                 [Js.quoted "Alpha"; Js.quoted "Twin"; Js.quoted "Twin"])%string),
     []).
Proof.
  apply (proj1 (messaging_tools_ignore_server TextScenario.twinsBot
                  (Some "Alpha") "general" "hi" 50 None [] ltac:(discriminate))).
Defined.

Module SendFacts.
Import Messaging.

Lemma no_sends (asked : Log) :
  Forall (fun r => sends r = false) asked -> filter sends asked = [].
Proof.
  induction 1 as [|r asked Hr _ IH]; simpl; [reflexivity|]. now rewrite Hr.
Qed.


End SendFacts.

(** X21.  When [findChannel] has resolved the channel, [send-message]
    sends the message to that channel as its last request: a send that
    succeeds gives the reply that names the channel, its guild and the id
    of the sent message, and a send that is rejected makes the handler throw
    that rejection. *)
Theorem send_message_after_resolution
  (bot : Messaging.Bot) (server : option string)
  (channelIdentifier message : string) (log log1 : Messaging.Log)
  (channel : Messaging.GuildChannel) :
  Messaging.findChannel bot channelIdentifier None log = (Return channel, log1) ->
  let sending :=
    Messaging.ChannelSend (ch_id (Messaging.gc_channel channel)) message in
  (forall sent,
     Messaging.channel_send bot log1 channel message = Fulfilled sent ->
     Messaging.sendMessage bot server channelIdentifier message log =
       (Return
          ("Message sent successfully to #" ++
           ch_name (Messaging.gc_channel channel) ++ " in " ++
           guild_name (Messaging.gc_guild channel) ++ ". Message ID: " ++
           msg_id sent)%string,
        log1 ++ [sending])) /\
  (forall failure,
     Messaging.channel_send bot log1 channel message = Rejected failure ->
     Messaging.sendMessage bot server channelIdentifier message log =
       (Throw (Rejection failure), log1 ++ [sending])).
Proof.
  intros Hchannel sending. split.
  - intros sent Hsent. unfold Messaging.sendMessage.
    rewrite (MessagingFacts.andThen_Return _ _ _ _ _ Hchannel).
    now rewrite (MessagingFacts.andThen_Return _ _ _ _ _
                   (MessagingFacts.awaitTask_Fulfilled _
                      (fun log => Messaging.channel_send bot log channel message)
                      _ _ Hsent)).
  - intros failure Hfail. unfold Messaging.sendMessage.
    rewrite (MessagingFacts.andThen_Return _ _ _ _ _ Hchannel).
    now rewrite (MessagingFacts.andThen_Throw _ _ _ _ _
                   (MessagingFacts.awaitTask_Rejected _
                      (fun log => Messaging.channel_send bot log channel message)
                      _ _ Hfail)).
Qed.

(** "hi" sent to the channel "general". *)
Lemma send_message_after_resolution_witness :
  Messaging.sendMessage TextScenario.townBot None "general" "hi" [] =
    (Return
       ("Message sent successfully to #" ++ "general" ++ " in " ++ "Alpha" ++
        ". Message ID: " ++ "9001")%string,
     [Messaging.ClientChannelsFetch "general"] ++
     [Messaging.ChannelSend "600" "hi"]).
Proof.
  exact (proj1 (send_message_after_resolution TextScenario.townBot None
                  "general" "hi" [] [Messaging.ClientChannelsFetch "general"]
                  (TextScenario.inAlpha TextScenario.general) eq_refl)
           _ eq_refl).
Defined.

(** X22.  In every run, whatever the client answers, [send-message] sends
    at most one message, with the content it was given, and issues no
    request of the forum tools other than lookups.  A run that returns has
    sent the message as its last request; a run that throws an error of the
    handler's own, as the resolvers do, has sent nothing. *)
Theorem send_message_sends_at_most_once
  (bot : Messaging.Bot) (server : option string)
  (channelIdentifier message : string) (log : Messaging.Log) :
  exists r asked,
    Messaging.sendMessage bot server channelIdentifier message log =
      (r, log ++ asked) /\
    (length (filter Messaging.sends asked) <= 1)%nat /\
    Forall (fun request =>
              (forall channel content,
                 request = Messaging.ChannelSend channel content ->
                 content = message) /\
              (forall c, request = Messaging.Forum c -> isLookup c = true))
      asked /\
    match r with
    | Return _ =>
        exists earlier channel,
          asked = earlier ++ [Messaging.ChannelSend channel message]
    | Throw (Error _) => filter Messaging.sends asked = []
    | Throw (Rejection _) => True
    end.
Proof.
  set (P := fun request : Messaging.Request =>
              Messaging.sends request = false /\
              forall c, request = Messaging.Forum c -> isLookup c = true).
  destruct (MessagingFacts.logs_run P
              (Messaging.findChannel bot channelIdentifier None) log)
    as [r1 [asked1 [Hrun1 Hall1]]].
  { apply MessagingFacts.findChannel_logs.
    - intros c Hc. split; [reflexivity|]. now intros c' [= <-].
    - intros id. split; [reflexivity|]. intros c' [=]. }
  assert (Hnone : filter Messaging.sends asked1 = []).
  { apply SendFacts.no_sends. eapply Forall_impl; [|exact Hall1].
    now intros request [Hs _]. }
  assert (Hshape : Forall (fun request =>
                             (forall channel content,
                                request = Messaging.ChannelSend channel content ->
                                content = message) /\
                             (forall c, request = Messaging.Forum c ->
                                        isLookup c = true)) asked1).
  { eapply Forall_impl; [|exact Hall1]. intros request [Hs Hf]. split.
    - intros channel content ->. discriminate.
    - exact Hf. }
  unfold Messaging.sendMessage.
  destruct r1 as [channel|e].
  - rewrite (MessagingFacts.andThen_Return _ _ _ _ _ Hrun1).
    set (sending :=
           Messaging.ChannelSend (ch_id (Messaging.gc_channel channel)) message).
    assert (Hsending :
              (length (filter Messaging.sends (asked1 ++ [sending])) <= 1)%nat /\
              Forall (fun request =>
                        (forall channel content,
                           request = Messaging.ChannelSend channel content ->
                           content = message) /\
                        (forall c, request = Messaging.Forum c ->
                                   isLookup c = true)) (asked1 ++ [sending])).
    { split.
      - rewrite filter_app, Hnone. simpl. lia.
      - apply Forall_app. split; [assumption|].
        constructor; [|constructor]. split.
        + now intros ch content [= _ <-].
        + intros c [=]. }
    destruct (Messaging.channel_send bot (log ++ asked1) channel message)
      as [sent|failure] eqn:Hsend.
    + rewrite (MessagingFacts.andThen_Return _ _ _ _ _
                 (MessagingFacts.awaitTask_Fulfilled _
                    (fun log => Messaging.channel_send bot log channel message)
                    _ _ Hsend)).
      eexists. exists (asked1 ++ [sending]).
      split; [unfold Messaging.done; now rewrite app_assoc|].
      split; [apply Hsending|split; [apply Hsending|]].
      now exists asked1, (ch_id (Messaging.gc_channel channel)).
    + rewrite (MessagingFacts.andThen_Throw _ _ _ _ _
                 (MessagingFacts.awaitTask_Rejected _
                    (fun log => Messaging.channel_send bot log channel message)
                    _ _ Hsend)).
      eexists. exists (asked1 ++ [sending]).
      split; [now rewrite app_assoc|].
      split; [apply Hsending|split; [apply Hsending|exact I]].
  - rewrite (MessagingFacts.andThen_Throw _ _ _ _ _ Hrun1).
    exists (Throw e), asked1. split; [reflexivity|].
    split; [rewrite Hnone; simpl; lia|split; [assumption|]].
    destruct e; [exact Hnone|exact I].
Qed.


